(** * Heario: asynchronous search orchestration

    A shallow embedding of the client side of the two-wave news search:

    - [services/api.ts]              : [NewsItem]
    - [services/asyncNewsService.ts] : [SearchTask], [PaginatedSearchResult],
      [getSearchStatus], [paginatedSearch], [cancelSearchTask],
      [pollSearchStatus], [smartSearch]
    - [components/NewsList.tsx]      : the component state, [handleSmartSearch],
      [handleCancelSearch] and the three callbacks handed to [smartSearch]
    - [components/SmartSearchBar.tsx], [components/SearchProgress.tsx] : the
      two gates through which the user reaches those handlers.

    JavaScript runs the handlers on one event loop.  Every [await] on a
    network reply and every [setTimeout] is a suspension point; between two
    suspension points a handler runs to completion.  The embedding therefore
    gives each handler invocation a program counter ([Proc]) and lets an
    explicit list of events (user actions, network replies, timer expiry)
    drive a deterministic [step] function over the component state.
    Handlers read the component state of the latest render, which is the
    current state whenever the event loop picks up the next event. *)

From stdpp Require Import base option list strings gmap pretty.
From Stdlib Require Import ZArith Lia.

Open Scope string_scope.
Open Scope list_scope.
Open Scope Z_scope.

(** ** Data model *)

(** [services/api.ts]: [interface NewsItem]. *)
Module News.
Record NewsItem : Type := mk {
  id : string;
  title : string;
  summary : string;
  url : string;
  created_at : string
}.
End News.
Abbreviation NewsItem := News.NewsItem.

(** [asyncNewsService.ts]: [interface SearchTask].  The status is kept as the
    string that arrives in the JSON body; the poller compares it with [===]
    against three literals and treats everything else alike. *)
Module Task.
Record SearchTask : Type := mk {
  task_id : string;
  query : string;
  status : string;
  message : string;
  progress : Z;
  started_at : string;
  articles : list NewsItem;
  total_processed : option Z;
  total_found : option Z;
  error : option string
}.
End Task.
Abbreviation SearchTask := Task.SearchTask.

(** [asyncNewsService.ts]: [interface PaginatedSearchResult]. *)
Module Page.
Record PaginatedSearchResult : Type := mk {
  articles : list NewsItem;
  page : Z;
  per_page : Z;
  total_immediate : Z;
  background_task_id : option string;
  message : string
}.
End Page.
Abbreviation PaginatedSearchResult := Page.PaginatedSearchResult.

(** JavaScript truthiness of a [string | undefined | null]: only a present,
    non-empty string passes [if (x)] and survives [x || y]. *)
Definition truthy (x : option string) : option string :=
  match x with
  | Some s => if decide (s = "") then None else Some s
  | None => None
  end.

(** [a || b] on an optional string [a] and a string [b]. *)
Definition or_else (a : option string) (b : string) : string :=
  default b (truthy a).

(** ** Result merger

    The updater passed to [setNewsList] in the final-results callback:
<<
      prevList => {
        const existingIds = new Set(prevList.map(item => item.id));
        const newArticles =
          finalTask.articles.filter(article => !existingIds.has(article.id));
        return [...prevList, ...newArticles];
      }
>>  *)
Definition existingIds (prevList : list NewsItem) : gset string :=
  list_to_set (News.id <$> prevList).

Definition newArticles (ids : gset string) (incoming : list NewsItem)
  : list NewsItem :=
  filter (λ article, News.id article ∉ ids) incoming.

Definition mergeArticles (prevList incoming : list NewsItem) : list NewsItem :=
  let ids := existingIds prevList in
  prevList ++ newArticles ids incoming.

(** The merge as the specification words it, with no set: walk the incoming
    batch in arrival order and keep an item when no displayed item carries
    its identifier. *)
Fixpoint id_occurs (i : string) (l : list NewsItem) : bool :=
  match l with
  | [] => false
  | x :: l' => if decide (News.id x = i) then true else id_occurs i l'
  end.

Fixpoint fresh_items (cur inc : list NewsItem) : list NewsItem :=
  match inc with
  | [] => []
  | a :: inc' =>
      if id_occurs (News.id a) cur then fresh_items cur inc'
      else a :: fresh_items cur inc'
  end.

Definition merge_spec (cur inc : list NewsItem) : list NewsItem :=
  cur ++ fresh_items cur inc.

(** ** Transport

    Each service method awaits [fetch], throws when [response.ok] is false and
    otherwise returns the decoded body.  The reply is supplied by the
    environment; [NetworkError] stands for a rejected [fetch] or an
    undecodable body, both of which reject the awaiting method. *)
Inductive HttpReply (A : Type) : Type :=
| NetworkError (reason : string)
| Response (ok : bool) (statusText : string) (body : A).
Arguments NetworkError {A} reason.
Arguments Response {A} ok statusText body.

(** How an awaited call ends: with a value, or with a thrown [Error] of which
    the message is kept. *)
Inductive Completion (A : Type) : Type :=
| Returned (value : A)
| Thrown (err : string).
Arguments Returned {A} value.
Arguments Thrown {A} err.

Definition decode {A : Type} (failure : string) (reply : HttpReply A)
  : Completion A :=
  match reply with
  | NetworkError reason => Thrown reason
  | Response ok statusText body =>
      if ok then Returned body else Thrown (failure +:+ statusText)
  end.

Definition getSearchStatus : HttpReply SearchTask → Completion SearchTask :=
  decode "無法獲取任務狀態: ".

Definition paginatedSearch
  : HttpReply PaginatedSearchResult → Completion PaginatedSearchResult :=
  decode "分頁搜尋失敗: ".

Definition cancelSearchTask : HttpReply string → Completion string :=
  decode "無法取消任務: ".

(** The requests the three methods put on the wire. *)
Inductive Request : Type :=
| GetStatus (taskId : string)
| PostPaginated (query : string) (page per_page : Z)
| DeleteTask (taskId : string).

(** ** Poller: [pollSearchStatus] *)

Definition cancelled_message : string := "搜尋已取消".

Definition is_terminal (status : string) : bool :=
  bool_decide (status = "completed")
  || bool_decide (status = "error")
  || bool_decide (status = "cancelled").

(** What one round of the inner [poll] does after the observer has run. *)
Inductive PollAction : Type :=
| Resolve (task : SearchTask)
| Reject (err : string)
| SetTimeout (ms : Z).

Definition poll_decision (task : SearchTask) (pollInterval : Z) : PollAction :=
  if decide (Task.status task = "completed") then Resolve task
  else if decide (Task.status task = "error") then
    Reject (or_else (Task.error task) (Task.message task))
  else if decide (Task.status task = "cancelled") then
    Reject cancelled_message
  else SetTimeout pollInterval.

(** One round of [poll], from the completion of [getSearchStatus] on: the
    optional observer runs on the fetched task, then the status decides.  A
    throwing fetch goes straight to the [catch], which rejects.  Observers
    are taken not to throw; the ones this component passes are state setters
    and [console.log]. *)
Definition poll {S : Type} (onProgress : option (SearchTask → S → S))
    (pollInterval : Z) (fetched : Completion SearchTask) (s : S)
  : S * PollAction :=
  match fetched with
  | Thrown err => (s, Reject err)
  | Returned task =>
      (from_option (λ observer, observer task s) s onProgress,
       poll_decision task pollInterval)
  end.

(** What a poll instance does, in order. *)
Inductive PollEvent : Type :=
| Fetched (taskId : string) (result : Completion SearchTask)
| Observed (task : SearchTask)
| TimerSet (ms : Z).

Definition observer_events {S : Type} (onProgress : option (SearchTask → S → S))
    (fetched : Completion SearchTask) : list PollEvent :=
  match onProgress, fetched with
  | Some _, Returned task => [Observed task]
  | _, _ => []
  end.

(** The promise returned by [pollSearchStatus], watched for at most [fuel]
    fetches.  [server taskId n] is the reply to the [n]-th status request for
    [taskId]; the result is [None] while the promise is still pending. *)
Fixpoint poll_rounds {S : Type} (server : string → nat → HttpReply SearchTask)
    (taskId : string) (onProgress : option (SearchTask → S → S))
    (pollInterval : Z) (fuel n : nat) (s : S)
  : S * list PollEvent * option (Completion SearchTask) :=
  match fuel with
  | O => (s, [], None)
  | Datatypes.S fuel' =>
      let fetched := getSearchStatus (server taskId n) in
      let here := Fetched taskId fetched :: observer_events onProgress fetched in
      match poll onProgress pollInterval fetched s with
      | (s', Resolve task) => (s', here, Some (Returned task))
      | (s', Reject err) => (s', here, Some (Thrown err))
      | (s', SetTimeout ms) =>
          match poll_rounds server taskId onProgress pollInterval
                  fuel' (Datatypes.S n) s' with
          | (s'', later, settled) => (s'', here ++ TimerSet ms :: later, settled)
          end
      end
  end.

Definition pollSearchStatus {S : Type}
    (server : string → nat → HttpReply SearchTask) (taskId : string)
    (onProgress : option (SearchTask → S → S)) (pollInterval : Z)
    (fuel : nat) (s : S)
  : S * list PollEvent * option (Completion SearchTask) :=
  poll_rounds server taskId onProgress pollInterval fuel 0%nat s.

Definition is_fetch (e : PollEvent) : bool :=
  match e with
  | Fetched _ _ => true
  | _ => false
  end.

(** ** Search session controller: [NewsList.tsx] *)

(** The [useState] cells that the smart-search handlers read or write.  The
    cells [loading], [fetchingNew], [selectedNews], [isModalOpen] and
    [useSmartSearch] are touched by none of them and are left out. *)
#[projections(primitive)]
Record NewsListState : Type := mkState {
  newsList : list NewsItem;
  error : option string;
  isSearching : bool;
  currentSearchTask : option SearchTask;
  paginatedResults : option PaginatedSearchResult;
  backgroundTaskId : option string;
  currentSearchQuery : string
}.

(** Where a handler invocation is suspended. *)
Inductive Proc : Type :=
| AwaitCancelOld (query oldTaskId : string)
| AwaitImmediate (query : string)
| AwaitStatus (query taskId : string)
| AwaitTimer (query taskId : string) (ms : Z)
| AwaitCancel (taskId : string)
| Finished
| CancelSettled.

Inductive ConsoleEntry : Type :=
| console_log (label : string)
| console_error (label : string) (err : string).

(** The component together with everything it leaves behind: the handler
    invocations (indexed by the order in which they began), the requests put
    on the wire and the console.  [observerCalls] and [searchCompleteCalls]
    are instrumentation: every call of the progress callback with the
    invocation it belongs to, and every argument handed to the optional
    [onSearchComplete] prop. *)
#[projections(primitive)]
Record World : Type := mkWorld {
  ui : NewsListState;
  procs : list Proc;
  requests : list (nat * Request);
  console : list ConsoleEntry;
  observerCalls : list (nat * SearchTask);
  searchCompleteCalls : list nat
}.

Definition Action : Type := World → World.

Definition seq (a b : Action) : Action := λ w, b (a w).
Infix ">>" := seq (at level 61, left associativity).

Definition skip : Action := λ w, w.

Definition update_ui (f : NewsListState → NewsListState) : Action := λ w,
  mkWorld (f (ui w)) (procs w) (requests w) (console w)
    (observerCalls w) (searchCompleteCalls w).

Definition setNewsList (f : list NewsItem → list NewsItem) : Action :=
  update_ui (λ v, mkState (f (newsList v)) (error v) (isSearching v)
    (currentSearchTask v) (paginatedResults v) (backgroundTaskId v)
    (currentSearchQuery v)).

Definition setError (e : option string) : Action :=
  update_ui (λ v, mkState (newsList v) e (isSearching v)
    (currentSearchTask v) (paginatedResults v) (backgroundTaskId v)
    (currentSearchQuery v)).

Definition setIsSearching (b : bool) : Action :=
  update_ui (λ v, mkState (newsList v) (error v) b
    (currentSearchTask v) (paginatedResults v) (backgroundTaskId v)
    (currentSearchQuery v)).

Definition setCurrentSearchTask (t : option SearchTask) : Action :=
  update_ui (λ v, mkState (newsList v) (error v) (isSearching v)
    t (paginatedResults v) (backgroundTaskId v) (currentSearchQuery v)).

Definition setPaginatedResults (r : option PaginatedSearchResult) : Action :=
  update_ui (λ v, mkState (newsList v) (error v) (isSearching v)
    (currentSearchTask v) r (backgroundTaskId v) (currentSearchQuery v)).

Definition setBackgroundTaskId (t : option string) : Action :=
  update_ui (λ v, mkState (newsList v) (error v) (isSearching v)
    (currentSearchTask v) (paginatedResults v) t (currentSearchQuery v)).

Definition setCurrentSearchQuery (q : string) : Action :=
  update_ui (λ v, mkState (newsList v) (error v) (isSearching v)
    (currentSearchTask v) (paginatedResults v) (backgroundTaskId v) q).

Definition print (e : ConsoleEntry) : Action := λ w,
  mkWorld (ui w) (procs w) (requests w) (console w ++ [e])
    (observerCalls w) (searchCompleteCalls w).

Definition send (pid : nat) (r : Request) : Action := λ w,
  mkWorld (ui w) (procs w) (requests w ++ [(pid, r)]) (console w)
    (observerCalls w) (searchCompleteCalls w).

Definition spawn (p : Proc) : Action := λ w,
  mkWorld (ui w) (procs w ++ [p]) (requests w) (console w)
    (observerCalls w) (searchCompleteCalls w).

Definition goto (pid : nat) (p : Proc) : Action := λ w,
  mkWorld (ui w) (<[pid := p]> (procs w)) (requests w) (console w)
    (observerCalls w) (searchCompleteCalls w).

Definition count_observer_call (pid : nat) (task : SearchTask) : Action := λ w,
  mkWorld (ui w) (procs w) (requests w) (console w)
    (observerCalls w ++ [(pid, task)]) (searchCompleteCalls w).

Definition onSearchComplete (newsCount : nat) : Action := λ w,
  mkWorld (ui w) (procs w) (requests w) (console w)
    (observerCalls w) (searchCompleteCalls w ++ [newsCount]).

(** The three callbacks [handleSmartSearch] hands to [smartSearch]. *)
Definition onImmediateResults (immediateResults : PaginatedSearchResult)
  : Action :=
  print (console_log "收到立即結果:") >>
  setPaginatedResults (Some immediateResults) >>
  setNewsList (λ _, Page.articles immediateResults) >>
  setBackgroundTaskId (truthy (Page.background_task_id immediateResults)) >>
  onSearchComplete (length (Page.articles immediateResults)).

Definition onProgress (pid : nat) (task : SearchTask) : Action :=
  count_observer_call pid task >>
  print (console_log "搜尋進度更新:") >>
  setCurrentSearchTask (Some task).

Definition onFinalResults (finalTask : SearchTask) : Action :=
  print (console_log "收到最終結果:") >>
  setCurrentSearchTask (Some finalTask) >>
  match Task.articles finalTask with
  | [] => skip
  | _ :: _ =>
      setNewsList (λ prevList, mergeArticles prevList (Task.articles finalTask)) >>
      onSearchComplete (length (Task.articles finalTask))
  end.

(** [handleSmartSearch] from the state resets to the first [await] inside
    [smartSearch]. *)
Definition begin_search (pid : nat) (query : string) : Action :=
  setIsSearching true >>
  setError None >>
  setCurrentSearchTask None >>
  setPaginatedResults None >>
  setBackgroundTaskId None >>
  setNewsList (λ _, []) >>
  setCurrentSearchQuery query >>
  print (console_log "開始智能搜尋:") >>
  send pid (PostPaginated query 1 8) >>
  goto pid (AwaitImmediate query).

(** [smartSearch] has returned: the closing log and the [finally] block. *)
Definition finish (pid : nat) : Action :=
  print (console_log "智能搜尋完成:") >>
  setIsSearching false >>
  goto pid Finished.

(** The [catch] of [smartSearch] around the poll. *)
Definition background_failed (err : string) : Action :=
  print (console_error "背景搜尋失敗:" err).

(** The [catch] and [finally] of [handleSmartSearch]. *)
Definition search_failed (pid : nat) (query err : string) : Action :=
  print (console_error "智能搜尋失敗:" err) >>
  setError (Some ("智能搜尋「" +:+ query +:+ "」失敗")) >>
  setIsSearching false >>
  goto pid Finished.

Definition handleSmartSearch (query : string) : Action := λ w,
  let pid := length (procs w) in
  match truthy (backgroundTaskId (ui w)) with
  | Some old => (spawn (AwaitCancelOld query old) >> send pid (DeleteTask old)) w
  | None => (spawn (AwaitImmediate query) >> begin_search pid query) w
  end.

Definition handleCancelSearch : Action := λ w,
  let pid := length (procs w) in
  match truthy (backgroundTaskId (ui w)) with
  | Some current => (spawn (AwaitCancel current) >> send pid (DeleteTask current)) w
  | None => w
  end.

(** The user's two ways in.  [SmartSearchBar] submits the trimmed text
    (carried by the event) unless it is empty or its [loading] prop, which is
    [isSearching], is set; [NewsList] renders the bar only while [error] is
    null.  [SearchProgress] is rendered while [currentSearchTask] is set and
    offers its cancel button while that task's status is not terminal. *)
Definition can_submit (v : NewsListState) (query : string) : bool :=
  bool_decide (error v = None) && negb (isSearching v)
  && negb (bool_decide (query = "")).

Definition can_cancel (v : NewsListState) : bool :=
  bool_decide (error v = None)
  && match currentSearchTask v with
     | Some task => negb (is_terminal (Task.status task))
     | None => false
     end.

Inductive Event : Type :=
| SubmitSmartSearch (query : string)
| ClickCancel
| CancelReply (pid : nat) (reply : HttpReply string)
| PaginatedReply (pid : nat) (reply : HttpReply PaginatedSearchResult)
| StatusReply (pid : nat) (reply : HttpReply SearchTask)
| TimerFired (pid : nat).

(** The continuations after each suspension point.

    [after_cancel_old]: [handleSmartSearch] after [await cancelSearchTask],
    whose inner [try]/[catch] only logs either way.
    [after_immediate]: [smartSearch] after [await paginatedSearch]; a throw
    leaves [smartSearch] and lands in the [catch] of [handleSmartSearch].
    [after_status]: one round of [poll] inside [pollSearchStatus], then, once
    the promise settles, the rest of [smartSearch].
    [after_timer]: the callback of [setTimeout(poll, pollInterval)].
    [after_cancel]: [handleCancelSearch] after [await cancelSearchTask]. *)
Definition after_cancel_old (pid : nat) (query oldTaskId : string)
    (reply : HttpReply string) : Action :=
  match cancelSearchTask reply with
  | Returned _ => print (console_log "取消了舊的搜尋任務:")
  | Thrown err => print (console_error "取消舊搜尋失敗:" err)
  end >>
  begin_search pid query.

Definition after_immediate (pid : nat) (query : string)
    (reply : HttpReply PaginatedSearchResult) : Action :=
  match paginatedSearch reply with
  | Thrown err => search_failed pid query err
  | Returned immediateResults =>
      onImmediateResults immediateResults >>
      match truthy (Page.background_task_id immediateResults) with
      | Some taskId => send pid (GetStatus taskId) >> goto pid (AwaitStatus query taskId)
      | None => finish pid
      end
  end.

Definition after_status (pid : nat) (query taskId : string)
    (reply : HttpReply SearchTask) : Action := λ w,
  match poll (Some (onProgress pid)) 1000 (getSearchStatus reply) w with
  | (w', Resolve finalResults) => (onFinalResults finalResults >> finish pid) w'
  | (w', Reject err) => (background_failed err >> finish pid) w'
  | (w', SetTimeout ms) => goto pid (AwaitTimer query taskId ms) w'
  end.

Definition after_timer (pid : nat) (query taskId : string) : Action :=
  send pid (GetStatus taskId) >> goto pid (AwaitStatus query taskId).

Definition after_cancel (pid : nat) (reply : HttpReply string) : Action :=
  match cancelSearchTask reply with
  | Returned _ => setCurrentSearchTask None >> setBackgroundTaskId None
  | Thrown err => print (console_error "取消搜尋失敗:" err)
  end >>
  goto pid CancelSettled.

(** One turn of the event loop.  A reply or timer that does not match the
    suspension point of the invocation it names is not an event the
    environment can produce and leaves the world as it is. *)
Definition step (w : World) (e : Event) : World :=
  match e with
  | SubmitSmartSearch query =>
      if can_submit (ui w) query then handleSmartSearch query w else w
  | ClickCancel =>
      if can_cancel (ui w) then handleCancelSearch w else w
  | CancelReply pid reply =>
      match procs w !! pid with
      | Some (AwaitCancelOld query old) => after_cancel_old pid query old reply w
      | Some (AwaitCancel _) => after_cancel pid reply w
      | _ => w
      end
  | PaginatedReply pid reply =>
      match procs w !! pid with
      | Some (AwaitImmediate query) => after_immediate pid query reply w
      | _ => w
      end
  | StatusReply pid reply =>
      match procs w !! pid with
      | Some (AwaitStatus query taskId) => after_status pid query taskId reply w
      | _ => w
      end
  | TimerFired pid =>
      match procs w !! pid with
      | Some (AwaitTimer query taskId _) => after_timer pid query taskId w
      | _ => w
      end
  end.

Definition run (w : World) (events : list Event) : World :=
  foldl step w events.

(** The component as mounted, with nothing searched yet. *)
Definition mounted : World :=
  mkWorld (mkState [] None false None None None "") [] [] [] [] [].

(** The code keeps no generation counter.  The generation of the session is
    read off the world as the number of [handleSmartSearch] invocations begun
    so far ([CancelSettled] keeps finished [handleCancelSearch] invocations
    apart from finished searches for this count); an invocation
    is polling when it waits for a status reply or for its poll timer. *)
Definition is_search (p : Proc) : bool :=
  match p with
  | AwaitCancel _ | CancelSettled => false
  | _ => true
  end.

Definition generation (w : World) : nat :=
  length (filter (λ p, is_search p = true) (procs w)).

Definition polling (w : World) (pid : nat) : bool :=
  match procs w !! pid with
  | Some (AwaitStatus _ _) | Some (AwaitTimer _ _ _) => true
  | _ => false
  end.

(** The status replies for [taskId] numbered below [k] all decode to a task
    that is still in progress. *)
Definition in_progress_before (server : string → nat → HttpReply SearchTask)
    (taskId : string) (k : nat) : Prop :=
  ∀ i, (i < k)%nat →
    ∃ task, getSearchStatus (server taskId i) = Returned task
            ∧ is_terminal (Task.status task) = false.

(** How the promise settles on one fetched completion, if it does. *)
Definition settles (fetched : Completion SearchTask) (pollInterval : Z)
  : option (Completion SearchTask) :=
  match fetched with
  | Thrown err => Some (Thrown err)
  | Returned task =>
      match poll_decision task pollInterval with
      | Resolve final => Some (Returned final)
      | Reject err => Some (Thrown err)
      | SetTimeout _ => None
      end
  end.

Definition is_observer_call (e : PollEvent) : bool :=
  match e with
  | Observed _ => true
  | _ => false
  end.

(** Every fetch of a terminal status is followed by observer calls only. *)
Fixpoint quiet_after_terminal (trace : list PollEvent) : Prop :=
  match trace with
  | [] => True
  | Fetched _ (Returned task) :: rest =>
      (is_terminal (Task.status task) = true →
       Forall (λ e, is_observer_call e = true) rest)
      ∧ quiet_after_terminal rest
  | _ :: rest => quiet_after_terminal rest
  end.

(** ** Worked data *)

Definition article (i : string) : NewsItem :=
  News.mk i ("title " +:+ i) ("summary " +:+ i) ("http://news/" +:+ i)
    "2025-08-01".

(** The same identifier fetched at another time: only the summary differs. *)
Definition article_again (i : string) : NewsItem :=
  News.mk i ("title " +:+ i) ("later summary " +:+ i) ("http://news/" +:+ i)
    "2025-08-01".

Definition task_of (taskId query status : string) (progress : Z)
    (articles : list NewsItem) : SearchTask :=
  Task.mk taskId query status ("status is " +:+ status) progress
    "2025-08-01T08:00:00" articles None None None.

Definition page_of (articles : list NewsItem) (taskId : option string)
  : PaginatedSearchResult :=
  Page.mk articles 1 8 (Z.of_nat (length articles)) taskId "immediate results".

Definition ok {A : Type} (body : A) : HttpReply A := Response true "OK" body.

(** A task runner that answers [fetching_articles] once and then
    [completed] with two articles, whatever the task. *)
Definition two_step_server (taskId : string) (n : nat) : HttpReply SearchTask :=
  match n with
  | O => ok (task_of taskId "台灣" "fetching_articles" 20 [])
  | _ => ok (task_of taskId "台灣" "completed" 100
               [article_again "B"; article "C"])
  end.

(** An observer that counts its calls. *)
Definition counting_observer : option (SearchTask → nat → nat) :=
  Some (λ _ calls, Datatypes.S calls).

(** ** Scenarios *)

(** The reply to the cancellation of the previous task, which a search
    awaits only when [backgroundTaskId] was set as it began. *)
Definition old_cancel_reply (w : World) (pid : nat) (reply : HttpReply string)
  : list Event :=
  match truthy (backgroundTaskId (ui w)) with
  | Some _ => [CancelReply pid reply]
  | None => []
  end.

(** Progress ticks of one poll: each task is fetched, then the timer fires. *)
Definition progress_ticks (pid : nat) (tasks : list SearchTask) : list Event :=
  tasks ≫= λ task, [StatusReply pid (ok task); TimerFired pid].

(** The background wave ends badly: the status fetch fails, or returns the
    status [error] or [cancelled]. *)
Definition fails_in_background (reply : HttpReply SearchTask) : Prop :=
  match getSearchStatus reply with
  | Thrown _ => True
  | Returned task =>
      Task.status task = "error" ∨ Task.status task = "cancelled"
  end.

(** A first search runs to completion and leaves its task id behind.  Two
    searches are then submitted within the round trip of the cancellation
    that each of them requests for that task; the first of the two gets a
    background task [T1] and polls it, the second gets none and finishes,
    which re-enables the search bar while [T1] is still being polled. *)
Definition poll_in_flight : list Event :=
  [ SubmitSmartSearch "q1";
    PaginatedReply 0 (ok (page_of [] (Some "T0")));
    StatusReply 0 (ok (task_of "T0" "q1" "completed" 100 []));
    SubmitSmartSearch "q2";
    SubmitSmartSearch "q3";
    CancelReply 1 (ok "task cancelled");
    CancelReply 2 (ok "task cancelled");
    PaginatedReply 1 (ok (page_of [article "A"] (Some "T1")));
    PaginatedReply 2 (ok (page_of [] None)) ].

(** The next query and its immediate wave. *)
Definition newer_query : Event := SubmitSmartSearch "q4".

Definition newer_immediate : list Event :=
  [ PaginatedReply 3 (ok (page_of [article "B"] (Some "T3"))) ].

(** A search with a background task, one progress tick seen, and the cancel
    button of the progress display pressed. *)
Definition cancel_pressed : list Event :=
  [ SubmitSmartSearch "q1";
    PaginatedReply 0 (ok (page_of [article "A"] (Some "T1")));
    StatusReply 0 (ok (task_of "T1" "q1" "fetching_articles" 20 []));
    ClickCancel ].

(** A new search begun while the previous task id is still recorded. *)
Definition resubmitted : list Event :=
  [ SubmitSmartSearch "q1";
    PaginatedReply 0 (ok (page_of [article "A"] (Some "T1")));
    StatusReply 0 (ok (task_of "T1" "q1" "completed" 100 []));
    SubmitSmartSearch "q2" ].

(** ** Reading the wire and the observer log *)

(** What one invocation put on the wire, and what it handed to the progress
    observer. *)
Definition sent_by (pid : nat) (sent : list (nat * Request)) : list Request :=
  omap (λ entry, if decide (entry.1 = pid) then Some entry.2 else None) sent.

Definition observed_by (pid : nat) (calls : list (nat * SearchTask))
  : list SearchTask :=
  omap (λ entry, if decide (entry.1 = pid) then Some entry.2 else None) calls.

(** The requests a search sends up to its immediate wave: the cancellation
    of the recorded task, if any, and the paginated search. *)
Definition opening_requests (w : World) (query : string)
  : list (nat * Request) :=
  match truthy (backgroundTaskId (ui w)) with
  | Some old => [(length (procs w), DeleteTask old)]
  | None => []
  end ++ [(length (procs w), PostPaginated query 1 8)].

(** A task runner that never gets past [fetching_content]. *)
Definition stalled_server (taskId : string) (n : nat) : HttpReply SearchTask :=
  Response true "OK"
    (Task.mk taskId "台灣" "fetching_content" "still fetching" 50
       "2025-08-01T08:00:00" [] None None None).

(** ** Reading a poll trace *)

(** The tasks a poll fetched, and the tasks it handed to its observer, both
    in order. *)
Definition fetched_tasks (trace : list PollEvent) : list SearchTask :=
  omap (λ e, match e with
             | Fetched _ (Returned task) => Some task
             | _ => None
             end) trace.

Definition observed_tasks (trace : list PollEvent) : list SearchTask :=
  omap (λ e, match e with
             | Observed task => Some task
             | _ => None
             end) trace.

Definition timers_set (trace : list PollEvent) : list Z :=
  omap (λ e, match e with
             | TimerSet ms => Some ms
             | _ => None
             end) trace.

(** ** Browser services: [localStorage], [Date.now], [Math.random]

    A [localStorage] entry is read with [getItem] and decoded with
    [JSON.parse] inside a [try]: it is [Missing] (null, or the empty string,
    which the readers treat alike), [Unreadable] (the parse throws) or
    [Kept].  The records stored here survive [JSON.stringify] and
    [JSON.parse] unchanged.  [setItem] throws when the quota is exhausted,
    which [storage_full] records with the error's message.  [Date.now()] and
    [Math.random().toString(36).substr(2, 9)] are read from oracles, one
    value per call. *)
Inductive Slot (A : Type) : Type :=
| Missing
| Unreadable (reason : string)
| Kept (value : A).
Arguments Missing {A}.
Arguments Unreadable {A} reason.
Arguments Kept {A} value.

(** [utils/playlistManager.ts]: [PlaylistItem] and [Playlist]. *)
Module Item.
Record PlaylistItem : Type := mk {
  id : string;
  newsItem : NewsItem;
  order : nat;
  estimatedDuration : Z;
  audioUrl : option string
}.
End Item.
Abbreviation PlaylistItem := Item.PlaylistItem.

Module Plist.
Record Playlist : Type := mk {
  id : string;
  title : string;
  items : list PlaylistItem;
  totalDuration : Z;
  createdAt : Z;
  updatedAt : Z
}.
End Plist.
Abbreviation Playlist := Plist.Playlist.

(** A JavaScript string as its UTF-16 code units, for the code that
    measures and cuts strings. *)
Abbreviation text := (list N).

(** [utils/searchHistory.ts]: [SearchSession]. *)
Module Session.
Record SearchSession : Type := mk {
  id : string;
  title : text;
  query : text;
  timestamp : Z;
  newsCount : option Z
}.
End Session.
Abbreviation SearchSession := Session.SearchSession.

#[projections(primitive)]
Record Browser : Type := mkBrowser {
  currentPlaylist : Slot Playlist;
  savedPlaylists : Slot (list Playlist);
  searchSessions : Slot (list SearchSession);
  storage_full : option string;
  clock : nat → Z;
  clock_reads : nat;
  random : nat → string;
  random_reads : nat;
  browser_console : list ConsoleEntry
}.

Definition Date_now (b : Browser) : Z * Browser :=
  (clock b (clock_reads b),
   mkBrowser (currentPlaylist b) (savedPlaylists b) (searchSessions b)
     (storage_full b) (clock b) (Datatypes.S (clock_reads b)) (random b)
     (random_reads b) (browser_console b)).

Definition random_suffix (b : Browser) : string * Browser :=
  (random b (random_reads b),
   mkBrowser (currentPlaylist b) (savedPlaylists b) (searchSessions b)
     (storage_full b) (clock b) (clock_reads b) (random b)
     (Datatypes.S (random_reads b)) (browser_console b)).

Definition browser_log (e : ConsoleEntry) (b : Browser) : Browser :=
  mkBrowser (currentPlaylist b) (savedPlaylists b) (searchSessions b)
    (storage_full b) (clock b) (clock_reads b) (random b) (random_reads b)
    (browser_console b ++ [e]).

Definition store_currentPlaylist (slot : Slot Playlist) (b : Browser)
  : Browser :=
  mkBrowser slot (savedPlaylists b) (searchSessions b)
    (storage_full b) (clock b) (clock_reads b) (random b) (random_reads b)
    (browser_console b).

Definition store_searchSessions (slot : Slot (list SearchSession))
    (b : Browser) : Browser :=
  mkBrowser (currentPlaylist b) (savedPlaylists b) slot
    (storage_full b) (clock b) (clock_reads b) (random b) (random_reads b)
    (browser_console b).

(** ** Playlist: [utils/playlistManager.ts] *)

Definition getCurrentPlaylist (b : Browser) : option Playlist * Browser :=
  match currentPlaylist b with
  | Kept playlist => (Some playlist, b)
  | Missing => (None, b)
  | Unreadable reason =>
      (None, browser_log (console_error "Error loading current playlist:" reason) b)
  end.

Definition saveCurrentPlaylist (playlist : Playlist) (b : Browser) : Browser :=
  match storage_full b with
  | Some reason =>
      browser_log (console_error "Error saving current playlist:" reason) b
  | None => store_currentPlaylist (Kept playlist) b
  end.

Definition createPlaylist (title : option string) (b : Browser)
  : Playlist * Browser :=
  let '(stamp, b) := Date_now b in
  let '(suffix, b) := random_suffix b in
  let '(created, b) := Date_now b in
  let '(updated, b) := Date_now b in
  let playlist :=
    Plist.mk ("playlist_" +:+ pretty stamp +:+ "_" +:+ suffix)
      (default "我的播放清單" title) [] 0 created updated in
  (playlist, saveCurrentPlaylist playlist b).

(** [findIndex] and [find] with the predicates the playlist code uses. *)
Definition find_by_news (newsId : string) (items : list PlaylistItem)
  : option (nat * PlaylistItem) :=
  list_find (λ item, News.id (Item.newsItem item) = newsId) items.

Definition find_by_id (itemId : string) (items : list PlaylistItem)
  : option (nat * PlaylistItem) :=
  list_find (λ item, Item.id item = itemId) items.

Definition with_order (index : nat) (item : PlaylistItem) : PlaylistItem :=
  Item.mk (Item.id item) (Item.newsItem item) index
    (Item.estimatedDuration item) (Item.audioUrl item).

(** [addToPlaylist].  [estimateReadingTime] computes in floating point over
    regular-expression matches and is taken as given. *)
Definition addToPlaylist (estimateReadingTime : string → Z)
    (newsItem : NewsItem) (playlist : option Playlist) (b : Browser)
  : Playlist * Browser :=
  let '(currentPlaylist, b) :=
    match playlist with
    | Some given => (given, b)
    | None =>
        match getCurrentPlaylist b with
        | (Some stored, b) => (stored, b)
        | (None, b) => createPlaylist None b
        end
    end in
  match find_by_news (News.id newsItem) (Plist.items currentPlaylist) with
  | Some _ => (currentPlaylist, b)
  | None =>
      let estimatedDuration :=
        estimateReadingTime
          (News.summary newsItem +:+ " " +:+ News.title newsItem) in
      let '(stamp, b) := Date_now b in
      let '(suffix, b) := random_suffix b in
      let playlistItem :=
        Item.mk ("item_" +:+ pretty stamp +:+ "_" +:+ suffix) newsItem
          (length (Plist.items currentPlaylist)) estimatedDuration None in
      let '(updated, b) := Date_now b in
      let updatedPlaylist :=
        Plist.mk (Plist.id currentPlaylist) (Plist.title currentPlaylist)
          (Plist.items currentPlaylist ++ [playlistItem])
          (Plist.totalDuration currentPlaylist + estimatedDuration)
          (Plist.createdAt currentPlaylist) updated in
      (updatedPlaylist, saveCurrentPlaylist updatedPlaylist b)
  end.


Definition isInPlaylist (newsId : string) (playlist : option Playlist)
    (b : Browser) : bool * Browser :=
  let '(currentPlaylist, b) :=
    match playlist with
    | Some given => (Some given, b)
    | None => getCurrentPlaylist b
    end in
  match currentPlaylist with
  | None => (false, b)
  | Some currentPlaylist =>
      (bool_decide (is_Some (find_by_news newsId (Plist.items currentPlaylist))),
       b)
  end.

(** [reorderPlaylist]: the [forEach] over the requested ids, pushing a copy
    of each item found with the position of its id in the request. *)
Fixpoint reordered_from (index : nat) (itemIds : list string)
    (items : list PlaylistItem) : list PlaylistItem :=
  match itemIds with
  | [] => []
  | itemId :: rest =>
      match find_by_id itemId items with
      | Some (_, item) =>
          with_order index item :: reordered_from (Datatypes.S index) rest items
      | None => reordered_from (Datatypes.S index) rest items
      end
  end.

Definition reorderPlaylist (itemIds : list string) (playlist : option Playlist)
    (b : Browser) : Playlist * Browser :=
  let '(currentPlaylist, b) :=
    match playlist with
    | Some given => (Some given, b)
    | None => getCurrentPlaylist b
    end in
  match currentPlaylist with
  | None => createPlaylist None b
  | Some currentPlaylist =>
      let reorderedItems :=
        reordered_from 0 itemIds (Plist.items currentPlaylist) in
      let '(updated, b) := Date_now b in
      let updatedPlaylist :=
        Plist.mk (Plist.id currentPlaylist) (Plist.title currentPlaylist)
          reorderedItems (Plist.totalDuration currentPlaylist)
          (Plist.createdAt currentPlaylist) updated in
      (updatedPlaylist, saveCurrentPlaylist updatedPlaylist b)
  end.


(** What the playlist code keeps true of a playlist: every item's [order]
    is its position, and [totalDuration] is the sum of the items'
    durations. *)
Definition total_of (items : list PlaylistItem) : Z :=
  foldr (λ item rest, Item.estimatedDuration item + rest) 0 items.

Definition tidy (playlist : Playlist) : Prop :=
  (∀ index item, Plist.items playlist !! index = Some item →
                 Item.order item = index)
  ∧ Plist.totalDuration playlist = total_of (Plist.items playlist).

(** ** Search history: [utils/searchHistory.ts] *)

Definition MAX_SESSIONS : nat := 50.

Definition getSessions (b : Browser) : list SearchSession * Browser :=
  match searchSessions b with
  | Kept sessions => (sessions, b)
  | Missing => ([], b)
  | Unreadable reason =>
      ([], browser_log (console_error "Error loading search sessions:" reason) b)
  end.

Definition saveSessions (sessions : list SearchSession) (b : Browser)
  : Browser :=
  match storage_full b with
  | Some reason =>
      browser_log (console_error "Error saving search sessions:" reason) b
  | None => store_searchSessions (Kept sessions) b
  end.

Definition space : N := 32.
Definition dots : text := [46; 46; 46]%N.

(** [query.split(' ')]: one word per separator, empty words included. *)
Fixpoint split_on (separator : N) (s : text) : list text :=
  match s with
  | [] => [[]]
  | c :: rest =>
      if decide (c = separator) then [] :: split_on separator rest
      else match split_on separator rest with
           | word :: words => (c :: word) :: words
           | [] => [[c]]
           end
  end.

(** The [for] loop of [generateTitle], from the title built so far. *)
Fixpoint fit_words (title : text) (words : list text) : text :=
  match words with
  | [] => title
  | word :: rest =>
      if decide (20 < length (title ++ word))%nat then title
      else fit_words
             (title ++ match title with [] => [] | _ :: _ => [space] end ++ word)
             rest
  end.

Definition generateTitle (query : text) : text :=
  if decide (length query ≤ 20)%nat then query
  else
    let words := split_on space query in
    match words with
    | [_] => take 20 query ++ dots
    | _ =>
        let title := fit_words [] words in
        title ++ (if decide (length title < length query)%nat then dots else [])
    end.

Definition createSession (query : text) (newsCount : option Z) (b : Browser)
  : SearchSession * Browser :=
  let count := default 0 newsCount in
  let '(sessions, b) := getSessions b in
  match list_find (λ s, Session.query s = query) sessions with
  | Some (existingIndex, existing) =>
      let '(stamp, b) := Date_now b in
      let refreshed :=
        Session.mk (Session.id existing) (Session.title existing)
          (Session.query existing) stamp (Some count) in
      (refreshed, saveSessions (<[existingIndex := refreshed]> sessions) b)
  | None =>
      let '(stamp, b) := Date_now b in
      let '(suffix, b) := random_suffix b in
      let title := generateTitle query in
      let '(created, b) := Date_now b in
      let newSession :=
        Session.mk ("session_" +:+ pretty stamp +:+ "_" +:+ suffix) title
          query created (Some count) in
      let updatedSessions := take MAX_SESSIONS (newSession :: sessions) in
      (newSession, saveSessions updatedSessions b)
  end.

(** A [Partial<SearchSession>]: the keys that are present. *)
Module Patch.
Record SessionPatch : Type := mk {
  id : option string;
  title : option text;
  query : option text;
  timestamp : option Z;
  newsCount : option Z
}.
End Patch.
Abbreviation SessionPatch := Patch.SessionPatch.

(** [{ ...session, ...updates }]. *)
Definition patched (session : SearchSession) (updates : SessionPatch)
  : SearchSession :=
  Session.mk (default (Session.id session) (Patch.id updates))
    (default (Session.title session) (Patch.title updates))
    (default (Session.query session) (Patch.query updates))
    (default (Session.timestamp session) (Patch.timestamp updates))
    (match Patch.newsCount updates with
     | Some count => Some count
     | None => Session.newsCount session
     end).

Definition updateSession (sessionId : string) (updates : SessionPatch)
    (b : Browser) : Browser :=
  let '(sessions, b) := getSessions b in
  match list_find (λ s, Session.id s = sessionId) sessions with
  | Some (index, session) =>
      saveSessions (<[index := patched session updates]> sessions) b
  | None => b
  end.

Definition deleteSession (sessionId : string) (b : Browser) : Browser :=
  let '(sessions, b) := getSessions b in
  let filtered := filter (λ s, Session.id s ≠ sessionId) sessions in
  saveSessions filtered b.

Definition clearAllSessions (b : Browser) : Browser :=
  store_searchSessions Missing b.

(** [MainLayout.tsx]: the [{ newsCount }] update that [handleSearchComplete]
    sends for the current session when [NewsList] reports a count. *)
Definition count_patch (newsCount : Z) : SessionPatch :=
  Patch.mk None None None None (Some newsCount).

Definition handleSearchComplete (currentSession : option SearchSession)
    (newsCount : Z) (b : Browser) : option SearchSession * Browser :=
  match currentSession with
  | Some current =>
      (Some (patched current (count_patch newsCount)),
       updateSession (Session.id current) (count_patch newsCount) b)
  | None => (None, b)
  end.

(** A query of 23 code units whose first two words fill 21 of them. *)
Definition long_query : text :=
  replicate 10 97%N ++ space :: replicate 10 98%N ++ [space; 99%N].

(** ** Worked browser data *)

Definition sample_browser : Browser :=
  mkBrowser Missing Missing Missing None
    (λ n, 1754000000000 + Z.of_nat n) 0
    (λ n, "k3j9x" +:+ pretty n) 0 [].

Definition full_browser : Browser :=
  mkBrowser Missing Missing Missing (Some "QuotaExceededError")
    (λ n, 1754000000000 + Z.of_nat n) 0
    (λ n, "k3j9x" +:+ pretty n) 0 [].

Definition flat_estimate (reading : string) : Z := 30.

Definition sample_playlist : Playlist :=
  Plist.mk "playlist_1_a" "我的播放清單"
    [ Item.mk "item_1_a" (article "A") 0 30 None;
      Item.mk "item_2_b" (article "B") 1 45 None ]
    75 1753000000000 1753000000500.

Definition sample_sessions : list SearchSession :=
  [ Session.mk "session_1_a" [21488; 28771]%N [21488; 28771]%N 1753000000000
      (Some 8);
    Session.mk "session_2_b" [65; 73]%N [65; 73]%N 1752000000000 None ].

Definition history_browser : Browser :=
  mkBrowser Missing Missing (Kept sample_sessions) None
    (λ n, 1754000000000 + Z.of_nat n) 0
    (λ n, "k3j9x" +:+ pretty n) 0 [].

(** A search that has received its immediate wave and is polling [T1]. *)
Definition polling_T1 : list Event :=
  [ SubmitSmartSearch "台灣";
    PaginatedReply 0 (ok (page_of [article "A"; article "B"] (Some "T1"))) ].

(** Handlers are compositions of record updates; reducing them together
    with the projections keeps the terms small. *)
Ltac crunch :=
  lazy [after_status after_immediate after_cancel_old after_cancel
    after_timer handleSmartSearch handleCancelSearch begin_search finish
    search_failed background_failed onFinalResults onProgress
    onImmediateResults seq skip setNewsList setError setIsSearching
    setCurrentSearchTask setPaginatedResults setBackgroundTaskId
    setCurrentSearchQuery update_ui print send spawn goto
    count_observer_call onSearchComplete poll
    ui procs requests console observerCalls searchCompleteCalls
    newsList error isSearching currentSearchTask paginatedResults
    backgroundTaskId currentSearchQuery from_option fst snd] in *.

(** The same for the browser services. *)
Ltac browse :=
  lazy [Date_now random_suffix browser_log store_currentPlaylist
    store_searchSessions currentPlaylist savedPlaylists searchSessions
    storage_full clock clock_reads random random_reads browser_console
    fst snd] in *.

(** * Result merger *)

Section MergeFacts.

Implicit Types cur inc : list NewsItem.

Lemma elem_of_existingIds i cur :
  i ∈ existingIds cur ↔ i ∈ News.id <$> cur.
Proof. unfold existingIds. by rewrite elem_of_list_to_set. Qed.

Lemma id_occurs_spec i cur :
  id_occurs i cur = true ↔ i ∈ existingIds cur.
Proof.
  rewrite elem_of_existingIds.
  induction cur as [|x cur IH]; simpl.
  - split; [done | by intros ?%elem_of_nil].
  - rewrite elem_of_cons. case_decide as Hx.
    + split; [by left | done].
    + rewrite IH. split; [by right | intros [Heq|?]; [by subst | done]].
Qed.

Lemma newArticles_fresh_items cur inc :
  newArticles (existingIds cur) inc = fresh_items cur inc.
Proof.
  unfold newArticles.
  induction inc as [|a inc IH]; [done|].
  simpl. destruct (id_occurs (News.id a) cur) eqn:Ha.
  - apply id_occurs_spec in Ha.
    rewrite filter_cons_False by (intros ?; contradiction). exact IH.
  - rewrite filter_cons_True; [by rewrite IH|].
    intros Hin%id_occurs_spec. congruence.
Qed.

Lemma mergeArticles_nil cur : mergeArticles cur [] = cur.
Proof. unfold mergeArticles, newArticles. simpl. by rewrite app_nil_r. Qed.

Lemma mergeArticles_prefix cur inc : cur `prefix_of` mergeArticles cur inc.
Proof. unfold mergeArticles. by apply prefix_app_r. Qed.

Lemma filter_none {A : Type} (P : A → Prop) `{!∀ x, Decision (P x)}
    (l : list A) :
  (∀ x, x ∈ l → ¬ P x) → filter P l = [].
Proof.
  induction l as [|x l IH]; intros Hl; [done|].
  rewrite filter_cons_False by (apply Hl; left).
  apply IH. intros y Hy. apply Hl. by right.
Qed.

(** After a merge every identifier of the batch is displayed. *)
Lemma merged_ids_cover cur inc a :
  a ∈ inc → News.id a ∈ existingIds (mergeArticles cur inc).
Proof.
  intros Ha. rewrite elem_of_existingIds. unfold mergeArticles.
  rewrite fmap_app, elem_of_app.
  destruct (decide (News.id a ∈ existingIds cur)) as [Hin|Hout].
  - left. by apply elem_of_existingIds.
  - right. apply list_elem_of_fmap. exists a. split; [done|].
    unfold newArticles. by apply list_elem_of_filter.
Qed.

(** C3. The merge returns the displayed list unchanged, followed by exactly
    the incoming items whose identifier no displayed item carries, in their
    arrival order; the updater's identifier set, built once from the displayed
    list, selects the same items as the set-free reading of the
    specification.  Displayed [A,B] merged with [B,C] is [A,B,C], and the
    whole scenario for the query 台灣 (immediate [A,B] with task T1, one
    [fetching_articles] tick at 20, then [completed] with [B,C]) ends with
    [A,B,C] on display. *)
Theorem merge_keeps_displayed_then_appends_fresh :
  (∀ cur inc,
     mergeArticles cur inc = merge_spec cur inc
     ∧ take (length cur) (mergeArticles cur inc) = cur
     ∧ drop (length cur) (mergeArticles cur inc)
       = filter (λ a, News.id a ∉ News.id <$> cur) inc
     ∧ drop (length cur) (mergeArticles cur inc) `sublist_of` inc)
  ∧ mergeArticles [article "A"; article "B"] [article_again "B"; article "C"]
    = [article "A"; article "B"; article "C"]
  ∧ newsList (ui (run mounted
      [ SubmitSmartSearch "台灣";
        PaginatedReply 0 (ok (page_of [article "A"; article "B"] (Some "T1")));
        StatusReply 0 (ok (task_of "T1" "台灣" "fetching_articles" 20 []));
        TimerFired 0;
        StatusReply 0 (ok (task_of "T1" "台灣" "completed" 100
                             [article_again "B"; article "C"])) ]))
    = [article "A"; article "B"; article "C"].
Proof.
  split; [|split; vm_compute; reflexivity].
  intros cur inc.
  assert (Hnew : newArticles (existingIds cur) inc
                 = filter (λ a, News.id a ∉ News.id <$> cur) inc).
  { unfold newArticles. apply list_filter_iff. intros a.
    by rewrite elem_of_existingIds. }
  unfold mergeArticles, merge_spec. cbv zeta.
  rewrite take_app_length, drop_app_length.
  split; [by rewrite newArticles_fresh_items|].
  split; [done|]. split; [done|].
  rewrite Hnew. apply sublist_filter.
Qed.

(** C4. Merging the same batch a second time changes nothing. *)
Theorem merge_idempotent cur inc :
  mergeArticles (mergeArticles cur inc) inc = mergeArticles cur inc.
Proof.
  unfold mergeArticles at 1. cbv zeta.
  replace (newArticles (existingIds (mergeArticles cur inc)) inc) with
    (@nil NewsItem); [by rewrite app_nil_r|].
  symmetry. unfold newArticles. apply filter_none.
  intros a Ha Hfresh. apply Hfresh. by apply merged_ids_cover.
Qed.

(** C10. The batch is not deduplicated against itself: for an identifier
    that no displayed item carries, the merged list holds every occurrence
    the batch holds, in order. *)
Theorem merge_keeps_batch_duplicates cur inc (i : string) :
  i ∉ (News.id <$> cur) →
  filter (λ a, News.id a = i) (mergeArticles cur inc)
  = filter (λ a, News.id a = i) inc.
Proof.
  intros Hi. unfold mergeArticles, newArticles. cbv zeta.
  rewrite filter_app.
  rewrite (filter_none (λ a, News.id a = i) cur).
  - simpl. rewrite list_filter_filter. apply list_filter_iff.
    intros a. split; [by intros [? _]|].
    intros <-. split; [done|]. by rewrite elem_of_existingIds.
  - intros a Ha Heq. apply Hi. apply list_elem_of_fmap. by exists a.
Qed.

Lemma merge_keeps_batch_duplicates_witness :
  ("C" ∉ (News.id <$> [article "A"]))
  ∧ filter (λ a, News.id a = "C")
      (mergeArticles [article "A"] [article "C"; article_again "C"])
    = [article "C"; article_again "C"].
Proof.
  assert (H : "C" ∉ (News.id <$> [article "A"])).
  { simpl. intros [Heq|Hin]%elem_of_cons; [discriminate|].
    by apply elem_of_nil in Hin. }
  split; [exact H|].
  rewrite (merge_keeps_batch_duplicates [article "A"]
             [article "C"; article_again "C"] "C" H).
  reflexivity.
Defined.

End MergeFacts.

(** * Poller *)

Section PollerFacts.

Context {S : Type}.
Variable server : string → nat → HttpReply SearchTask.
Variable taskId : string.
Variable onProgress : option (SearchTask → S → S).
Variable pollInterval : Z.

Lemma poll_decision_in_progress task :
  is_terminal (Task.status task) = false →
  poll_decision task pollInterval = SetTimeout pollInterval.
Proof.
  unfold is_terminal, poll_decision. intros H.
  repeat case_decide; done.
Qed.

Lemma poll_decision_terminal task :
  is_terminal (Task.status task) = true →
  ∀ ms, poll_decision task pollInterval ≠ SetTimeout ms.
Proof.
  unfold is_terminal, poll_decision. intros H ms.
  repeat case_decide; done.
Qed.

Lemma poll_decision_completed task :
  Task.status task = "completed" →
  poll_decision task pollInterval = Resolve task.
Proof. unfold poll_decision. intros ->. reflexivity. Qed.

Lemma poll_decision_resolve_inv task final :
  poll_decision task pollInterval = Resolve final →
  Task.status task = "completed" ∧ final = task.
Proof.
  unfold poll_decision.
  destruct (decide (Task.status task = "completed")) as [Hc|Hn].
  - intros [= <-]. by split.
  - destruct (decide (Task.status task = "error"));
      [discriminate|].
    destruct (decide (Task.status task = "cancelled")); discriminate.
Qed.

Lemma poll_rounds_unfold fuel n (s : S) :
  poll_rounds server taskId onProgress pollInterval (Datatypes.S fuel) n s
  = let fetched := getSearchStatus (server taskId n) in
    let here := Fetched taskId fetched :: observer_events onProgress fetched in
    match poll onProgress pollInterval fetched s with
    | (s', Resolve task) => (s', here, Some (Returned task))
    | (s', Reject err) => (s', here, Some (Thrown err))
    | (s', SetTimeout ms) =>
        match poll_rounds server taskId onProgress pollInterval
                fuel (Datatypes.S n) s' with
        | (s'', later, settled) => (s'', here ++ TimerSet ms :: later, settled)
        end
    end.
Proof. reflexivity. Qed.

Lemma observer_events_idle fetched :
  Forall (λ e, is_observer_call e = true) (observer_events onProgress fetched).
Proof.
  unfold observer_events. destruct onProgress, fetched; repeat constructor.
Qed.

Lemma observer_events_no_fetch fetched :
  filter (λ e, is_fetch e = true) (observer_events onProgress fetched) = [].
Proof. unfold observer_events. by destruct onProgress, fetched. Qed.

(** Once the first [k] replies are in progress and reply [k] settles the
    promise, any watch longer than [k] fetches sees it settled that way,
    after exactly [k + 1] fetches. *)
Lemma poll_rounds_settles (k : nat) :
  ∀ (n fuel : nat) (s : S) outcome,
    (∀ i, (i < k)%nat →
       ∃ task, getSearchStatus (server taskId (n + i)) = Returned task
               ∧ is_terminal (Task.status task) = false) →
    settles (getSearchStatus (server taskId (n + k))) pollInterval
      = Some outcome →
    (k < fuel)%nat →
    let r := poll_rounds server taskId onProgress pollInterval fuel n s in
    r.2 = Some outcome
    ∧ length (filter (λ e, is_fetch e = true) r.1.2) = Datatypes.S k.
Proof.
  induction k as [|k IH]; intros n fuel s outcome Hrun Hend Hfuel;
    (destruct fuel as [|fuel]; [lia|]); rewrite poll_rounds_unfold; cbv zeta.
  - rewrite Nat.add_0_r in Hend. unfold settles in Hend. unfold poll.
    destruct (getSearchStatus (server taskId n)) as [task|err].
    + destruct (poll_decision task pollInterval); simplify_eq/=;
        (split; [done|]); by rewrite observer_events_no_fetch.
    + simplify_eq/=. split; [done|]. by rewrite observer_events_no_fetch.
  - destruct (Hrun 0%nat ltac:(lia)) as (task & Hfetch & Hstatus).
    rewrite Nat.add_0_r in Hfetch. rewrite Hfetch. unfold poll.
    rewrite (poll_decision_in_progress _ Hstatus).
    specialize (IH (Datatypes.S n) fuel
                  (from_option (λ observer, observer task s) s onProgress)
                  outcome).
    destruct (poll_rounds server taskId onProgress pollInterval fuel
                (Datatypes.S n) _) as [[s'' later] settled] eqn:Hrest.
    cbn [fst snd] in IH |- *.
    destruct IH as [IH1 IH2].
    + intros i Hi.
      replace (Datatypes.S n + i)%nat with (n + Datatypes.S i)%nat by lia.
      apply Hrun. lia.
    + replace (Datatypes.S n + k)%nat with (n + Datatypes.S k)%nat by lia.
      exact Hend.
    + lia.
    + split; [done|].
      rewrite <- app_comm_cons, filter_cons_True by done.
      rewrite filter_app, observer_events_no_fetch.
      rewrite app_nil_l, filter_cons_False by done.
      cbn [length]. by rewrite IH2.
Qed.

(** C6. With the first [k] status replies in progress, a poll watched for
    more than [k] fetches has settled on reply [k]: resolved with the fetched
    task when its status is [completed]; rejected with the task's [error],
    or its [message] when that is absent or empty, when the status is
    [error]; rejected with the cancellation failure when it is [cancelled];
    and rejected with the transport failure, the failing fetch being the
    last one issued, when the fetch itself fails. *)
Theorem poll_settles_on_terminal_reply (k fuel : nat) (s : S) :
  in_progress_before server taskId k →
  (k < fuel)%nat →
  let r := pollSearchStatus server taskId onProgress pollInterval fuel s in
  match getSearchStatus (server taskId k) with
  | Returned task =>
      (Task.status task = "completed" → r.2 = Some (Returned task))
      ∧ (Task.status task = "error" →
         r.2 = Some (Thrown (or_else (Task.error task) (Task.message task))))
      ∧ (Task.status task = "cancelled" →
         r.2 = Some (Thrown cancelled_message))
  | Thrown err =>
      r.2 = Some (Thrown err)
      ∧ length (filter (λ e, is_fetch e = true) r.1.2) = Datatypes.S k
  end.
Proof.
  intros Hrun Hfuel. cbv zeta. unfold pollSearchStatus.
  pose proof (λ outcome, poll_rounds_settles k 0%nat fuel s outcome Hrun)
    as Hsettles.
  simpl in Hsettles.
  destruct (getSearchStatus (server taskId k)) as [task|err] eqn:Hk.
  - unfold settles, poll_decision in Hsettles.
    repeat split; intros Hstatus; rewrite Hstatus in Hsettles;
      simpl in Hsettles; by apply (Hsettles _ eq_refl Hfuel).
  - by apply (Hsettles _ eq_refl Hfuel).
Qed.

Lemma quiet_after_idle (obs rest : list PollEvent) :
  Forall (λ e, is_observer_call e = true) obs →
  quiet_after_terminal rest → quiet_after_terminal (obs ++ rest).
Proof.
  induction 1 as [|e obs He _ IH]; intros Hrest; [done|].
  destruct e; try discriminate. simpl. by apply IH.
Qed.

Lemma quiet_idle (obs : list PollEvent) :
  Forall (λ e, is_observer_call e = true) obs → quiet_after_terminal obs.
Proof.
  intros Hobs. rewrite <- (app_nil_r obs). by apply quiet_after_idle.
Qed.

Lemma poll_rounds_quiet (fuel : nat) :
  ∀ (n : nat) (s : S),
    quiet_after_terminal
      (poll_rounds server taskId onProgress pollInterval fuel n s).1.2.
Proof.
  induction fuel as [|fuel IH]; intros n s; [done|].
  rewrite poll_rounds_unfold. cbv zeta. unfold poll.
  pose proof (observer_events_idle (getSearchStatus (server taskId n))) as Hobs.
  destruct (getSearchStatus (server taskId n)) as [task|err] eqn:Hfetch.
  - destruct (poll_decision task pollInterval) as [final|err|ms] eqn:Hdec.
    + simpl. split; [done|]. by apply quiet_idle.
    + simpl. split; [done|]. by apply quiet_idle.
    + specialize (IH (Datatypes.S n)
                    (from_option (λ observer, observer task s) s onProgress)).
      destruct (poll_rounds server taskId onProgress pollInterval fuel
                  (Datatypes.S n) _) as [[s'' later] settled].
      cbn [fst snd] in IH |- *. rewrite <- app_comm_cons.
      split.
      * intros Hterm. by destruct (poll_decision_terminal _ Hterm ms).
      * by apply quiet_after_idle.
  - simpl. by apply quiet_idle.
Qed.

Lemma quiet_after_terminal_split (trace : list PollEvent) :
  quiet_after_terminal trace →
  ∀ pre post tid task,
    trace = pre ++ Fetched tid (Returned task) :: post →
    is_terminal (Task.status task) = true →
    Forall (λ e, is_observer_call e = true) post.
Proof.
  intros Hq pre. revert trace Hq.
  induction pre as [|e pre IH]; intros trace Hq post tid task -> Hterm.
  - simpl in Hq. by apply Hq.
  - apply (IH (pre ++ Fetched tid (Returned task) :: post)) with tid task;
      [|done|done].
    simpl in Hq. destruct e as [? [?|?]| |]; tauto.
Qed.

(** C7. In everything a poll instance does, however long it is watched, a
    fetch that returned a [completed], [error] or [cancelled] status is
    followed by no event other than the observer call for that very fetch:
    no further status fetch and no timer for one. *)
Theorem no_fetch_after_terminal_status (fuel : nat) (s : S)
    (pre post : list PollEvent) (tid : string) (task : SearchTask) :
  (pollSearchStatus server taskId onProgress pollInterval fuel s).1.2
    = pre ++ Fetched tid (Returned task) :: post →
  is_terminal (Task.status task) = true →
  Forall (λ e, is_observer_call e = true) post
  ∧ filter (λ e, is_fetch e = true) post = [].
Proof.
  intros Htrace Hterm.
  assert (Hidle : Forall (λ e, is_observer_call e = true) post).
  { eapply quiet_after_terminal_split; [|exact Htrace|exact Hterm].
    unfold pollSearchStatus. apply poll_rounds_quiet. }
  split; [exact Hidle|].
  apply filter_none. intros e He.
  rewrite Forall_forall in Hidle. specialize (Hidle e He).
  destruct e; simpl in *; congruence.
Qed.

End PollerFacts.

Lemma two_step_in_progress :
  in_progress_before two_step_server "T1" 1.
Proof.
  intros i Hi. destruct i as [|i]; [|lia].
  eexists. split; reflexivity.
Qed.

Lemma poll_settles_on_terminal_reply_witness :
  in_progress_before two_step_server "T1" 1
  ∧ (1 < 5)%nat
  ∧ (pollSearchStatus two_step_server "T1" counting_observer 1000 5 0%nat).2
    = Some (Returned (task_of "T1" "台灣" "completed" 100
                        [article_again "B"; article "C"])).
Proof.
  split; [exact two_step_in_progress|]. split; [lia|].
  pose proof (poll_settles_on_terminal_reply two_step_server "T1"
                counting_observer 1000 1 5 0%nat two_step_in_progress
                ltac:(lia)) as H.
  simpl in H. destruct H as [H _]. exact (H eq_refl).
Defined.

Lemma no_fetch_after_terminal_status_witness :
  let task := task_of "T1" "台灣" "completed" 100
                [article_again "B"; article "C"] in
  let first := task_of "T1" "台灣" "fetching_articles" 20 [] in
  (pollSearchStatus two_step_server "T1" counting_observer 1000 5 0%nat).1.2
  = [Fetched "T1" (Returned first); Observed first; TimerSet 1000]
    ++ Fetched "T1" (Returned task) :: [Observed task]
  ∧ is_terminal (Task.status task) = true
  ∧ filter (λ e, is_fetch e = true) [Observed task] = [].
Proof.
  cbv zeta.
  assert (Htrace :
    (pollSearchStatus two_step_server "T1" counting_observer 1000 5 0%nat).1.2
    = [Fetched "T1" (Returned (task_of "T1" "台灣" "fetching_articles" 20 []));
       Observed (task_of "T1" "台灣" "fetching_articles" 20 []);
       TimerSet 1000]
      ++ Fetched "T1" (Returned (task_of "T1" "台灣" "completed" 100
                                   [article_again "B"; article "C"]))
         :: [Observed (task_of "T1" "台灣" "completed" 100
                         [article_again "B"; article "C"])])
    by reflexivity.
  split; [exact Htrace|]. split; [reflexivity|].
  exact (proj2 (no_fetch_after_terminal_status two_step_server "T1"
                  counting_observer 1000 5 0%nat _ _ _ _ Htrace eq_refl)).
Defined.

(** * Search session controller *)

Section ControllerFacts.

Implicit Types w : World.

Lemma step_status w pid query taskId reply :
  procs w !! pid = Some (AwaitStatus query taskId) →
  step w (StatusReply pid reply) = after_status pid query taskId reply w.
Proof. intros H. cbn [step]. by rewrite H. Qed.

Lemma step_timer w pid query taskId ms :
  procs w !! pid = Some (AwaitTimer query taskId ms) →
  step w (TimerFired pid) = after_timer pid query taskId w.
Proof. intros H. cbn [step]. by rewrite H. Qed.

(** What a status reply does to the displayed list, whatever else is going
    on in the component. *)
Lemma after_status_newsList w pid query taskId reply :
  newsList (ui (after_status pid query taskId reply w))
  = match getSearchStatus reply with
    | Returned task =>
        if decide (Task.status task = "completed")
        then mergeArticles (newsList (ui w)) (Task.articles task)
        else newsList (ui w)
    | Thrown _ => newsList (ui w)
    end.
Proof.
  unfold after_status, poll.
  destruct (getSearchStatus reply) as [task|err]; [|reflexivity].
  destruct (decide (Task.status task = "completed")) as [Hc|Hn].
  - rewrite (poll_decision_completed 1000 _ Hc).
    crunch. destruct (Task.articles task) eqn:Harticles; crunch.
    + symmetry. apply mergeArticles_nil.
    + reflexivity.
  - destruct (poll_decision task 1000) as [final|err|ms] eqn:Hdec.
    + apply poll_decision_resolve_inv in Hdec as [Hc _]. contradiction.
    + crunch. reflexivity.
    + crunch. reflexivity.
Qed.

(** C8. A status reply that carries a non-terminal status changes exactly
    one cell of the component state, [currentSearchTask]; the displayed list
    stays as it was, whatever articles the task carries. *)
Theorem progress_tick_keeps_list w pid query taskId reply task :
  procs w !! pid = Some (AwaitStatus query taskId) →
  getSearchStatus reply = Returned task →
  is_terminal (Task.status task) = false →
  let w' := step w (StatusReply pid reply) in
  newsList (ui w') = newsList (ui w)
  ∧ ui w' = ui (setCurrentSearchTask (Some task) w).
Proof.
  intros Hproc Hfetch Hstatus. cbv zeta. rewrite (step_status _ _ _ _ _ Hproc).
  unfold after_status, poll. rewrite Hfetch.
  rewrite (poll_decision_in_progress 1000 _ Hstatus).
  crunch. split; reflexivity.
Qed.

(** C1, as the code has it.  A status reply delivered to a poll, whether or
    not newer searches have begun since, never removes, replaces or reorders
    what is displayed: the list before is a prefix of the list after.  A
    failed fetch and every status other than [completed] leave the list
    unchanged; [completed] appends the task's articles whose identifiers are
    not displayed. *)
Theorem late_status_only_appends w pid query taskId reply :
  procs w !! pid = Some (AwaitStatus query taskId) →
  let w' := step w (StatusReply pid reply) in
  newsList (ui w')
  = match getSearchStatus reply with
    | Returned task =>
        if decide (Task.status task = "completed")
        then mergeArticles (newsList (ui w)) (Task.articles task)
        else newsList (ui w)
    | Thrown _ => newsList (ui w)
    end
  ∧ newsList (ui w) `prefix_of` newsList (ui w').
Proof.
  intros Hproc. cbv zeta. rewrite (step_status _ _ _ _ _ Hproc).
  rewrite after_status_newsList. split; [reflexivity|].
  destruct (getSearchStatus reply) as [task|err]; [|reflexivity].
  case_decide; [apply mergeArticles_prefix | reflexivity].
Qed.

(** C2, as the code has it.  A poll has no abandonment flag: whatever
    newer searches have begun, every status fetch that returns is handed to
    the progress observer, which overwrites [currentSearchTask]; and while
    the status is not terminal the poll arms its timer and, when it fires,
    issues the next fetch for the same task. *)
Theorem poll_observes_every_fetch w pid query taskId reply task :
  procs w !! pid = Some (AwaitStatus query taskId) →
  getSearchStatus reply = Returned task →
  let w' := step w (StatusReply pid reply) in
  observerCalls w' = observerCalls w ++ [(pid, task)]
  ∧ currentSearchTask (ui w') = Some task
  ∧ (is_terminal (Task.status task) = false →
     procs w' !! pid = Some (AwaitTimer query taskId 1000)
     ∧ requests (step w' (TimerFired pid))
       = requests w ++ [(pid, GetStatus taskId)]
     ∧ procs (step w' (TimerFired pid)) !! pid
       = Some (AwaitStatus query taskId)).
Proof.
  intros Hproc Hfetch. cbv zeta. rewrite (step_status _ _ _ _ _ Hproc).
  pose proof (lookup_lt_Some _ _ _ Hproc) as Hlt.
  unfold after_status, poll. rewrite Hfetch.
  destruct (poll_decision task 1000) as [final|err|ms] eqn:Hdec.
  - apply poll_decision_resolve_inv in Hdec as [Hc ->].
    crunch. destruct (Task.articles task); crunch.
    + split; [reflexivity|]. split; [reflexivity|].
      intros Hstatus. unfold is_terminal in Hstatus. rewrite Hc in Hstatus.
      discriminate.
    + split; [reflexivity|]. split; [reflexivity|].
      intros Hstatus. unfold is_terminal in Hstatus. rewrite Hc in Hstatus.
      discriminate.
  - crunch. split; [reflexivity|]. split; [reflexivity|].
    intros Hstatus.
    rewrite (poll_decision_in_progress 1000 _ Hstatus) in Hdec. discriminate.
  - crunch. split; [reflexivity|]. split; [reflexivity|].
    intros Hstatus.
    rewrite (poll_decision_in_progress 1000 _ Hstatus) in Hdec.
    injection Hdec as <-.
    assert (Hat : <[pid:=AwaitTimer query taskId 1000]> (procs w) !! pid
                  = Some (AwaitTimer query taskId 1000))
      by by apply list_lookup_insert_eq.
    split; [exact Hat|].
    cbn [step]. crunch. rewrite Hat. crunch.
    split; [reflexivity|]. apply list_lookup_insert_eq.
    by rewrite length_insert.
Qed.

Lemma run_app w (first later : list Event) :
  run w (first ++ later) = run (run w first) later.
Proof. unfold run. apply foldl_app. Qed.

Lemma run_single w e : run w [e] = step w e.
Proof. reflexivity. Qed.

Lemma run_cons w e (later : list Event) :
  run w (e :: later) = run (step w e) later.
Proof. reflexivity. Qed.

(** A submitted search, once the cancellation of the previous task (if one
    was recorded) is answered either way, waits for its immediate wave with
    the fatal-error cell cleared. *)
Lemma submit_awaits_immediate w query cancelReply :
  can_submit (ui w) query = true →
  let pid := length (procs w) in
  let w' := run w (SubmitSmartSearch query :: old_cancel_reply w pid cancelReply) in
  procs w' !! pid = Some (AwaitImmediate query) ∧ error (ui w') = None.
Proof.
  intros Hsubmit. cbv zeta. rewrite run_cons. cbn [step]. rewrite Hsubmit.
  unfold old_cancel_reply, handleSmartSearch.
  destruct (truthy (backgroundTaskId (ui w))) as [old|].
  - set (w1 := (spawn (AwaitCancelOld query old)
                >> send (length (procs w)) (DeleteTask old)) w).
    assert (Hw1 : procs w1 !! length (procs w) = Some (AwaitCancelOld query old)).
    { subst w1. crunch. by rewrite list_lookup_middle. }
    assert (Hlen : (length (procs w) < length (procs w1))%nat)
      by by apply lookup_lt_Some in Hw1.
    unfold run. cbn [foldl step]. rewrite Hw1.
    clearbody w1. unfold after_cancel_old.
    destruct (cancelSearchTask cancelReply); crunch;
      (split; [by apply list_lookup_insert_eq | reflexivity]).
  - unfold run. cbn [foldl]. crunch.
    split; [|reflexivity]. apply list_lookup_insert_eq.
    rewrite length_app. simpl. lia.
Qed.

Lemma immediate_starts_poll w pid query reply immediateResults taskId :
  procs w !! pid = Some (AwaitImmediate query) →
  paginatedSearch reply = Returned immediateResults →
  truthy (Page.background_task_id immediateResults) = Some taskId →
  let w' := step w (PaginatedReply pid reply) in
  procs w' !! pid = Some (AwaitStatus query taskId)
  ∧ newsList (ui w') = Page.articles immediateResults
  ∧ error (ui w') = error (ui w).
Proof.
  intros Hproc Hreply Htask. cbv zeta. cbn [step]. rewrite Hproc.
  unfold after_immediate. rewrite Hreply, Htask. crunch.
  split; [|by split]. apply list_lookup_insert_eq.
  by apply lookup_lt_Some in Hproc.
Qed.

Lemma tick_keeps_session w pid query taskId task :
  procs w !! pid = Some (AwaitStatus query taskId) →
  is_terminal (Task.status task) = false →
  let w' := run w [StatusReply pid (ok task); TimerFired pid] in
  procs w' !! pid = Some (AwaitStatus query taskId)
  ∧ newsList (ui w') = newsList (ui w)
  ∧ error (ui w') = error (ui w).
Proof.
  intros Hproc Hstatus. cbv zeta.
  pose proof (lookup_lt_Some _ _ _ Hproc) as Hlt.
  unfold run. cbn [foldl]. rewrite (step_status _ _ _ _ _ Hproc).
  unfold after_status, poll. cbn [getSearchStatus decode ok].
  rewrite (poll_decision_in_progress 1000 _ Hstatus).
  set (w1 := goto pid (AwaitTimer query taskId 1000) _).
  assert (Hw1 : procs w1 !! pid = Some (AwaitTimer query taskId 1000)).
  { subst w1. crunch. by apply list_lookup_insert_eq. }
  rewrite (step_timer _ _ _ _ _ Hw1). subst w1. crunch.
  split; [|by split]. apply list_lookup_insert_eq.
  by rewrite length_insert.
Qed.

Lemma ticks_keep_session (tasks : list SearchTask) :
  ∀ w pid query taskId,
    procs w !! pid = Some (AwaitStatus query taskId) →
    Forall (λ task, is_terminal (Task.status task) = false) tasks →
    let w' := run w (progress_ticks pid tasks) in
    procs w' !! pid = Some (AwaitStatus query taskId)
    ∧ newsList (ui w') = newsList (ui w)
    ∧ error (ui w') = error (ui w).
Proof.
  induction tasks as [|task tasks IH]; intros w pid query taskId Hproc Hall;
    cbv zeta.
  - by repeat split.
  - apply Forall_cons in Hall as [Htask Hall].
    unfold progress_ticks. rewrite bind_cons. fold (progress_ticks pid tasks).
    rewrite run_app.
    destruct (tick_keeps_session w pid query taskId task Hproc Htask)
      as (Hproc' & Hlist & Herr).
    destruct (IH _ pid query taskId Hproc' Hall) as (Hproc'' & Hlist' & Herr').
    split; [exact Hproc''|]. split; congruence.
Qed.

Lemma failure_finishes_quietly w pid query taskId reply :
  procs w !! pid = Some (AwaitStatus query taskId) →
  fails_in_background reply →
  let w' := step w (StatusReply pid reply) in
  procs w' !! pid = Some Finished
  ∧ newsList (ui w') = newsList (ui w)
  ∧ error (ui w') = error (ui w)
  ∧ (∃ err, console_error "背景搜尋失敗:" err ∈ console w')
  ∧ ∀ task, getSearchStatus reply = Returned task →
            currentSearchTask (ui w') = Some task.
Proof.
  intros Hproc Hfail. cbv zeta.
  pose proof (lookup_lt_Some _ _ _ Hproc) as Hlt.
  rewrite (step_status _ _ _ _ _ Hproc).
  unfold fails_in_background in Hfail. unfold after_status, poll.
  destruct (getSearchStatus reply) as [task|err].
  - assert (Hdec : ∃ err, poll_decision task 1000 = Reject err).
    { unfold poll_decision. destruct Hfail as [-> | ->]; eexists; reflexivity. }
    destruct Hdec as [err ->]. crunch.
    split; [by apply list_lookup_insert_eq|]. split; [done|]. split; [done|].
    split; [|by intros ? [= ->]].
    exists err. rewrite !elem_of_app, !list_elem_of_singleton. auto.
  - crunch.
    split; [by apply list_lookup_insert_eq|]. split; [done|]. split; [done|].
    split; [|by intros ? [=]].
    exists err. rewrite !elem_of_app, !list_elem_of_singleton. auto.
Qed.

(** C5. A search whose immediate wave arrives with a background task, and
    whose poll, after any number of progress ticks, ends with a failed fetch
    or with the status [error] or [cancelled], still displays exactly the
    immediate wave's articles; the fatal-error cell stays null, the failure
    is reported on the console, and a task that reported the failure is left
    on the progress display. *)
Theorem background_failure_keeps_immediate_results
    w query cancelReply reply immediateResults taskId
    (ticks : list SearchTask) (last : HttpReply SearchTask) :
  can_submit (ui w) query = true →
  paginatedSearch reply = Returned immediateResults →
  truthy (Page.background_task_id immediateResults) = Some taskId →
  Forall (λ task, is_terminal (Task.status task) = false) ticks →
  fails_in_background last →
  let pid := length (procs w) in
  let w' := run w (SubmitSmartSearch query
                   :: old_cancel_reply w pid cancelReply
                   ++ PaginatedReply pid reply
                   :: progress_ticks pid ticks
                   ++ [StatusReply pid last]) in
  newsList (ui w') = Page.articles immediateResults
  ∧ error (ui w') = None
  ∧ procs w' !! pid = Some Finished
  ∧ (∃ err, console_error "背景搜尋失敗:" err ∈ console w')
  ∧ ∀ task, getSearchStatus last = Returned task →
            currentSearchTask (ui w') = Some task.
Proof.
  intros Hsubmit Hreply Htask Hticks Hlast. cbv zeta.
  rewrite app_comm_cons, run_app.
  destruct (submit_awaits_immediate w query cancelReply Hsubmit)
    as [Hproc1 Herr1].
  set (w1 := run w (SubmitSmartSearch query :: _)) in *.
  rewrite run_cons.
  destruct (immediate_starts_poll w1 _ query reply immediateResults taskId
              Hproc1 Hreply Htask) as (Hproc2 & Hlist2 & Herr2).
  set (w2 := step w1 _) in *.
  rewrite run_app.
  destruct (ticks_keep_session ticks w2 _ query taskId Hproc2 Hticks)
    as (Hproc3 & Hlist3 & Herr3).
  set (w3 := run w2 _) in *.
  rewrite run_single.
  destruct (failure_finishes_quietly w3 _ query taskId last Hproc3 Hlast)
    as (Hproc4 & Hlist4 & Herr4 & Hnotice & Hshown).
  split; [congruence|]. split; [congruence|]. by repeat split.
Qed.

(** C9, as the code has it.  When the cancellation was requested by a new
    search for the previous task, a failed reply is logged and the search
    goes on exactly as after a successful one: same component state, same
    invocations, same requests.  When it was requested by the cancel button,
    a failed reply is logged and leaves the component state as it was, while
    a successful one clears [currentSearchTask] and [backgroundTaskId].  A
    cancel reply for anything else changes nothing. *)
Theorem failed_cancel_effects w pid (failed succeeded : HttpReply string)
    (err acknowledgement : string) :
  cancelSearchTask failed = Thrown err →
  cancelSearchTask succeeded = Returned acknowledgement →
  let wf := step w (CancelReply pid failed) in
  let ws := step w (CancelReply pid succeeded) in
  match procs w !! pid with
  | Some (AwaitCancelOld query old) =>
      ui wf = ui ws ∧ procs wf = procs ws ∧ requests wf = requests ws
      ∧ console wf = console w ++ [console_error "取消舊搜尋失敗:" err;
                                   console_log "開始智能搜尋:"]
  | Some (AwaitCancel current) =>
      ui wf = ui w
      ∧ console wf = console w ++ [console_error "取消搜尋失敗:" err]
      ∧ ui ws = ui ((setCurrentSearchTask None >> setBackgroundTaskId None) w)
      ∧ procs wf = procs ws ∧ requests wf = requests ws
  | _ => wf = w ∧ ws = w
  end.
Proof.
  intros Hfailed Hsucceeded. cbv zeta. cbn [step].
  destruct (procs w !! pid) as [[query old|?|? ?|? ? ?|current| |]|];
    try (split; reflexivity).
  - unfold after_cancel_old. rewrite Hfailed, Hsucceeded. crunch.
    rewrite <- !app_assoc. by repeat split.
  - unfold after_cancel. rewrite Hfailed, Hsucceeded. crunch.
    by repeat split.
Qed.

End ControllerFacts.

(** * The scenarios, run *)

(** C1, refuted as stated.  The poll of the search for q2 is in flight when
    q4 is submitted; q4's immediate wave puts [B] on display; the late
    [completed] reply for q2's task then adds its article [C] to q4's list. *)
Lemma stale_completed_poll_alters_newer_list :
  let w0 := run mounted poll_in_flight in
  let w1 := step w0 newer_query in
  let w2 := run w1 newer_immediate in
  let late := StatusReply 1 (ok (task_of "T1" "q2" "completed" 100
                                   [article "C"])) in
  polling w0 1 = true
  ∧ generation w1 = Datatypes.S (generation w0)
  ∧ procs w2 !! 1%nat = Some (AwaitStatus "q2" "T1")
  ∧ procs w2 !! 3%nat = Some (AwaitStatus "q4" "T3")
  ∧ currentSearchQuery (ui w2) = "q4"
  ∧ newsList (ui w2) = [article "B"]
  ∧ newsList (ui (step w2 late)) = [article "B"; article "C"]
  ∧ newsList (ui (step w2 late)) ≠ newsList (ui w2).
Proof.
  cbv zeta. repeat split; try (vm_compute; reflexivity).
  vm_compute. discriminate.
Qed.

Lemma late_status_only_appends_witness :
  let w := run mounted (poll_in_flight ++ newer_query :: newer_immediate) in
  let late := ok (task_of "T1" "q2" "completed" 100 [article "C"]) in
  procs w !! 1%nat = Some (AwaitStatus "q2" "T1")
  ∧ newsList (ui w) `prefix_of` newsList (ui (step w (StatusReply 1 late))).
Proof.
  cbv zeta.
  assert (Hproc :
    procs (run mounted (poll_in_flight ++ newer_query :: newer_immediate))
      !! 1%nat = Some (AwaitStatus "q2" "T1")) by (vm_compute; reflexivity).
  split; [exact Hproc|].
  exact (proj2 (late_status_only_appends _ 1 "q2" "T1"
                  (ok (task_of "T1" "q2" "completed" 100 [article "C"]))
                  Hproc)).
Defined.

(** C2, refuted as stated.  After q4 has superseded q2, the poll begun for
    q2 still hands its next status to the observer, which puts the old task
    on the progress display, and fetches again when its timer fires; q4's
    poll does the same, so two polls are calling the observer. *)
Lemma superseded_poll_still_observes :
  let w0 := run mounted poll_in_flight in
  let w2 := run w0 (newer_query :: newer_immediate) in
  let stale := task_of "T1" "q2" "fetching_articles" 40 [article "X"] in
  let fresh := task_of "T3" "q4" "fetching_articles" 10 [] in
  let w3 := run w2 [StatusReply 1 (ok stale); StatusReply 3 (ok fresh);
                    TimerFired 1; TimerFired 3] in
  polling w0 1 = true
  ∧ generation w2 = Datatypes.S (generation w0)
  ∧ polling w2 1 = true
  ∧ polling w2 3 = true
  ∧ currentSearchTask (ui (step w2 (StatusReply 1 (ok stale)))) = Some stale
  ∧ observerCalls w3 = observerCalls w2 ++ [(1%nat, stale); (3%nat, fresh)]
  ∧ requests w3
    = requests w2 ++ [(1%nat, GetStatus "T1"); (3%nat, GetStatus "T3")].
Proof. cbv zeta. repeat split; vm_compute; reflexivity. Qed.

Lemma poll_observes_every_fetch_witness :
  let w := run mounted (poll_in_flight ++ newer_query :: newer_immediate) in
  let stale := task_of "T1" "q2" "fetching_articles" 40 [article "X"] in
  procs w !! 1%nat = Some (AwaitStatus "q2" "T1")
  ∧ getSearchStatus (ok stale) = Returned stale
  ∧ observerCalls (step w (StatusReply 1 (ok stale)))
    = observerCalls w ++ [(1%nat, stale)].
Proof.
  cbv zeta.
  assert (Hproc :
    procs (run mounted (poll_in_flight ++ newer_query :: newer_immediate))
      !! 1%nat = Some (AwaitStatus "q2" "T1")) by (vm_compute; reflexivity).
  split; [exact Hproc|]. split; [reflexivity|].
  exact (proj1 (poll_observes_every_fetch _ 1 "q2" "T1"
                  (ok (task_of "T1" "q2" "fetching_articles" 40 [article "X"]))
                  (task_of "T1" "q2" "fetching_articles" 40 [article "X"])
                  Hproc eq_refl)).
Defined.

Lemma progress_tick_keeps_list_witness :
  let w := run mounted
             [ SubmitSmartSearch "台灣";
               PaginatedReply 0
                 (ok (page_of [article "A"; article "B"] (Some "T1"))) ] in
  let partial := task_of "T1" "台灣" "generating_summaries" 80
                   [article "B"; article "Z"] in
  procs w !! 0%nat = Some (AwaitStatus "台灣" "T1")
  ∧ is_terminal (Task.status partial) = false
  ∧ newsList (ui (step w (StatusReply 0 (ok partial))))
    = [article "A"; article "B"].
Proof.
  cbv zeta.
  assert (Hproc :
    procs (run mounted
             [ SubmitSmartSearch "台灣";
               PaginatedReply 0
                 (ok (page_of [article "A"; article "B"] (Some "T1"))) ])
      !! 0%nat = Some (AwaitStatus "台灣" "T1")) by (vm_compute; reflexivity).
  split; [exact Hproc|]. split; [reflexivity|].
  rewrite (proj1 (progress_tick_keeps_list _ 0 "台灣" "T1"
                    (ok (task_of "T1" "台灣" "generating_summaries" 80
                           [article "B"; article "Z"]))
                    (task_of "T1" "台灣" "generating_summaries" 80
                       [article "B"; article "Z"])
                    Hproc eq_refl eq_refl)).
  vm_compute. reflexivity.
Defined.

Lemma background_failure_keeps_immediate_results_witness :
  let five := [article "1"; article "2"; article "3"; article "4";
               article "5"] in
  let w' := run mounted
              [ SubmitSmartSearch "台灣";
                PaginatedReply 0 (ok (page_of five (Some "T1")));
                StatusReply 0 (ok (task_of "T1" "台灣" "fetching_articles" 20 []));
                TimerFired 0;
                StatusReply 0 (ok (task_of "T1" "台灣" "error" 20
                                     [article "9"])) ] in
  can_submit (ui mounted) "台灣" = true
  ∧ fails_in_background (ok (task_of "T1" "台灣" "error" 20 [article "9"]))
  ∧ newsList (ui w') = five
  ∧ error (ui w') = None.
Proof.
  cbv zeta.
  assert (Hfail : fails_in_background
                    (ok (task_of "T1" "台灣" "error" 20 [article "9"])))
    by (left; reflexivity).
  assert (Hticks : Forall (λ task, is_terminal (Task.status task) = false)
                     [task_of "T1" "台灣" "fetching_articles" 20 []])
    by (repeat constructor).
  pose proof (background_failure_keeps_immediate_results mounted "台灣"
                (ok "")
                (ok (page_of [article "1"; article "2"; article "3";
                              article "4"; article "5"] (Some "T1")))
                (page_of [article "1"; article "2"; article "3";
                          article "4"; article "5"] (Some "T1"))
                "T1" _ _ eq_refl eq_refl eq_refl Hticks Hfail)
    as (Hlist & Herr & _).
  split; [reflexivity|]. split; [exact Hfail|]. split.
  - exact Hlist.
  - exact Herr.
Defined.

(** C9, refuted as stated.  With a poll under way and the cancel button
    pressed, a failed cancellation leaves the progress display and the
    recorded task id in place, where a successful one clears both. *)
Lemma failed_cancel_click_keeps_progress_display :
  let w := run mounted cancel_pressed in
  let wf := step w (CancelReply 1 (NetworkError "Failed to fetch")) in
  let ws := step w (CancelReply 1 (ok "task cancelled")) in
  procs w !! 1%nat = Some (AwaitCancel "T1")
  ∧ backgroundTaskId (ui wf) = Some "T1"
  ∧ backgroundTaskId (ui ws) = None
  ∧ currentSearchTask (ui wf)
    = Some (task_of "T1" "q1" "fetching_articles" 20 [])
  ∧ currentSearchTask (ui ws) = None
  ∧ ui wf ≠ ui ws.
Proof.
  cbv zeta. repeat split; try (vm_compute; reflexivity).
  vm_compute. discriminate.
Qed.

Lemma failed_cancel_effects_witness :
  let w := run mounted resubmitted in
  let failed := NetworkError "Failed to fetch" in
  let succeeded := ok "task cancelled" in
  cancelSearchTask failed = Thrown "Failed to fetch"
  ∧ cancelSearchTask succeeded = Returned "task cancelled"
  ∧ procs w !! 1%nat = Some (AwaitCancelOld "q2" "T1")
  ∧ ui (step w (CancelReply 1 failed)) = ui (step w (CancelReply 1 succeeded)).
Proof.
  cbv zeta.
  assert (Hproc : procs (run mounted resubmitted) !! 1%nat
                  = Some (AwaitCancelOld "q2" "T1"))
    by (vm_compute; reflexivity).
  split; [reflexivity|]. split; [reflexivity|]. split; [exact Hproc|].
  pose proof (failed_cancel_effects (run mounted resubmitted) 1
                (NetworkError "Failed to fetch") (ok "task cancelled")
                "Failed to fetch" "task cancelled" eq_refl eq_refl) as H.
  cbv zeta in H. rewrite Hproc in H. exact (proj1 H).
Defined.

(** * More on the result merger *)

Section MergeMore.

Implicit Types cur inc : list NewsItem.

(** X1. Identifiers stay distinct: when no two displayed items and no two
    incoming items share an identifier, no two merged items do. *)
Theorem merge_keeps_ids_distinct cur inc :
  NoDup (News.id <$> cur) →
  NoDup (News.id <$> inc) →
  NoDup (News.id <$> mergeArticles cur inc).
Proof.
  intros Hcur Hinc. unfold mergeArticles, newArticles. cbv zeta.
  rewrite fmap_app. apply NoDup_app. split; [exact Hcur|]. split.
  - intros i Hi Hnew. apply list_elem_of_fmap in Hnew as (a & -> & Ha).
    apply list_elem_of_filter in Ha as [Hfresh _].
    apply Hfresh. by apply elem_of_existingIds.
  - apply (sublist_NoDup _ (News.id <$> inc)); [exact Hinc|].
    apply fmap_sublist, sublist_filter.
Qed.

Lemma merge_keeps_ids_distinct_witness :
  NoDup (News.id <$> [article "A"; article "B"])
  ∧ NoDup (News.id <$> [article_again "B"; article "C"])
  ∧ NoDup (News.id <$> mergeArticles [article "A"; article "B"]
                          [article_again "B"; article "C"]).
Proof.
  assert (H1 : NoDup (News.id <$> [article "A"; article "B"]))
    by (apply (bool_decide_unpack _); vm_compute; exact I).
  assert (H2 : NoDup (News.id <$> [article_again "B"; article "C"]))
    by (apply (bool_decide_unpack _); vm_compute; exact I).
  split; [exact H1|]. split; [exact H2|].
  exact (merge_keeps_ids_distinct _ _ H1 H2).
Defined.

(** X2. Nothing is lost and nothing is invented: the identifiers on display
    after a merge are those displayed before together with those of the
    batch. *)
Theorem merge_ids_are_union cur inc :
  existingIds (mergeArticles cur inc) = existingIds cur ∪ existingIds inc.
Proof.
  apply set_eq. intros i.
  rewrite elem_of_union, !elem_of_existingIds.
  unfold mergeArticles, newArticles. cbv zeta.
  rewrite fmap_app, elem_of_app. split.
  - intros [Hi|Hi]; [by left|]. right.
    apply list_elem_of_fmap in Hi as (a & -> & Ha).
    apply list_elem_of_filter in Ha as [_ Ha].
    apply list_elem_of_fmap. by exists a.
  - intros [Hi|Hi]; [by left|].
    destruct (decide (i ∈ News.id <$> cur)) as [Hin|Hout]; [by left|].
    right. apply list_elem_of_fmap in Hi as (a & -> & Ha).
    apply list_elem_of_fmap. exists a. split; [done|].
    apply list_elem_of_filter. split; [|done].
    by rewrite elem_of_existingIds.
Qed.

(** X3. A merge leaves the displayed list as it is exactly when every
    incoming identifier is already displayed, and it never adds more items
    than the batch holds. *)
Theorem merge_changes_nothing_iff cur inc :
  (mergeArticles cur inc = cur
   ↔ ∀ a, a ∈ inc → News.id a ∈ News.id <$> cur)
  ∧ (length cur ≤ length (mergeArticles cur inc) ≤ length cur + length inc)%nat.
Proof.
  unfold mergeArticles, newArticles. cbv zeta. split.
  - split.
    + intros Heq a Ha.
      destruct (decide (News.id a ∈ existingIds cur)) as [Hin|Hout];
        [by apply elem_of_existingIds|].
      assert (Hnil : filter (λ article, News.id article ∉ existingIds cur) inc
                     = []).
      { apply (app_inv_head cur). by rewrite app_nil_r. }
      exfalso. by apply (filter_nil_not_elem_of _ _ a Hnil Hout).
    + intros Hall. rewrite filter_none; [by rewrite app_nil_r|].
      intros a Ha Hfresh. apply Hfresh, elem_of_existingIds. by apply Hall.
  - rewrite length_app.
    pose proof (length_filter (λ article, News.id article ∉ existingIds cur)
                  inc). lia.
Qed.

End MergeMore.

(** * More on the poller *)

Section PollerMore.

Context {S : Type}.
Variable server : string → nat → HttpReply SearchTask.
Variable taskId : string.
Variable pollInterval : Z.

Lemma poll_rounds_pending (fuel : nat) :
  ∀ (onProgress : option (SearchTask → S → S)) (n : nat) (s : S),
    (∀ i, (i < fuel)%nat →
       ∃ task, getSearchStatus (server taskId (n + i)) = Returned task
               ∧ is_terminal (Task.status task) = false) →
    let r := poll_rounds server taskId onProgress pollInterval fuel n s in
    r.2 = None
    ∧ length (filter (λ e, is_fetch e = true) r.1.2) = fuel
    ∧ timers_set r.1.2 = replicate fuel pollInterval.
Proof.
  induction fuel as [|fuel IH]; intros onProgress n s Hrun; cbv zeta;
    [done|].
  rewrite poll_rounds_unfold. cbv zeta.
  destruct (Hrun 0%nat ltac:(lia)) as (task & Hfetch & Hstatus).
  rewrite Nat.add_0_r in Hfetch. rewrite Hfetch. unfold poll.
  rewrite (poll_decision_in_progress _ _ Hstatus).
  specialize (IH onProgress (Datatypes.S n)
                (from_option (λ observer, observer task s) s onProgress)).
  destruct (poll_rounds server taskId onProgress pollInterval fuel
              (Datatypes.S n) _) as [[s'' later] settled].
  cbn [fst snd] in IH |- *.
  destruct IH as (IH1 & IH2 & IH3).
  { intros i Hi.
    replace (Datatypes.S n + i)%nat with (n + Datatypes.S i)%nat by lia.
    apply Hrun. lia. }
  split; [done|]. split.
  - rewrite <- app_comm_cons, filter_cons_True by done.
    rewrite filter_app, observer_events_no_fetch.
    rewrite app_nil_l, filter_cons_False by done.
    cbn [length]. by rewrite IH2.
  - unfold timers_set in *. rewrite <- app_comm_cons. cbn [omap list_omap].
    rewrite omap_app. cbn [omap list_omap]. rewrite IH3.
    unfold observer_events. by destruct onProgress.
Qed.

(** X4. The poll has no timeout and no retry limit: as long as the status
    replies are in progress, however many rounds are watched, the promise is
    still pending, one fetch has been issued per round, and each was followed
    by a timer of the configured interval. *)
Theorem poll_never_gives_up (onProgress : option (SearchTask → S → S))
    (fuel : nat) (s : S) :
  in_progress_before server taskId fuel →
  let r := pollSearchStatus server taskId onProgress pollInterval fuel s in
  r.2 = None
  ∧ length (filter (λ e, is_fetch e = true) r.1.2) = fuel
  ∧ timers_set r.1.2 = replicate fuel pollInterval.
Proof.
  intros Hrun. apply poll_rounds_pending. exact Hrun.
Qed.

Lemma poll_rounds_observer (fuel : nat) (observer : SearchTask → S → S) :
  ∀ (n : nat) (s : S),
    let r := poll_rounds server taskId (Some observer) pollInterval fuel n s in
    observed_tasks r.1.2 = fetched_tasks r.1.2
    ∧ r.1.1 = foldl (λ acc task, observer task acc) s (fetched_tasks r.1.2).
Proof.
  induction fuel as [|fuel IH]; intros n s; cbv zeta; [done|].
  rewrite poll_rounds_unfold. cbv zeta. unfold poll.
  destruct (getSearchStatus (server taskId n)) as [task|err]; [|done].
  destruct (poll_decision task pollInterval) as [final|err|ms]; [done|done|].
  specialize (IH (Datatypes.S n) (observer task s)).
  cbn [from_option].
  destruct (poll_rounds server taskId (Some observer) pollInterval fuel
              (Datatypes.S n) _) as [[s'' later] settled].
  cbn [fst snd] in IH |- *. destruct IH as [IH1 IH2].
  unfold observed_tasks, fetched_tasks, observer_events in *.
  cbn [app omap list_omap foldl]. by rewrite IH1, IH2.
Qed.

Lemma poll_rounds_unobserved (fuel : nat) :
  ∀ (n : nat) (s : S),
    let r := poll_rounds server taskId None pollInterval fuel n s in
    observed_tasks r.1.2 = [] ∧ r.1.1 = s.
Proof.
  induction fuel as [|fuel IH]; intros n s; cbv zeta; [done|].
  rewrite poll_rounds_unfold. cbv zeta. unfold poll.
  destruct (getSearchStatus (server taskId n)) as [task|err]; [|done].
  destruct (poll_decision task pollInterval) as [final|err|ms]; [done|done|].
  specialize (IH (Datatypes.S n) s). cbn [from_option].
  destruct (poll_rounds server taskId None pollInterval fuel
              (Datatypes.S n) _) as [[s'' later] settled].
  cbn [fst snd] in IH |- *. destruct IH as [IH1 IH2].
  unfold observed_tasks, observer_events in *.
  cbn [app omap list_omap]. by rewrite IH1, IH2.
Qed.

(** X5. A supplied observer is called exactly once for every status fetch
    that returned, with the fetched task and in fetch order, the final fetch
    included; its state at the end is the fold of those calls.  Without an
    observer nothing is called. *)
Theorem observer_sees_every_fetched_task (fuel : nat) (s : S) :
  (∀ observer,
     let r := pollSearchStatus server taskId (Some observer) pollInterval
                fuel s in
     observed_tasks r.1.2 = fetched_tasks r.1.2
     ∧ r.1.1 = foldl (λ acc task, observer task acc) s (fetched_tasks r.1.2))
  ∧ let r := pollSearchStatus server taskId None pollInterval fuel s in
    observed_tasks r.1.2 = [] ∧ r.1.1 = s.
Proof.
  split.
  - intros observer. apply poll_rounds_observer.
  - apply poll_rounds_unobserved.
Qed.

End PollerMore.



Lemma stalled_server_in_progress (fuel : nat) :
  in_progress_before stalled_server "T1" fuel.
Proof. intros i _. eexists. split; reflexivity. Qed.

Lemma poll_never_gives_up_witness :
  in_progress_before stalled_server "T1" 7
  ∧ (pollSearchStatus stalled_server "T1" counting_observer 1000 7 0%nat).2
    = None
  ∧ (pollSearchStatus stalled_server "T1" counting_observer 1000 7 0%nat).1.1
    = 7%nat.
Proof.
  split; [exact (stalled_server_in_progress 7)|].
  split; [|reflexivity].
  exact (proj1 (poll_never_gives_up stalled_server "T1" 1000
                  counting_observer 7 0%nat (stalled_server_in_progress 7))).
Defined.

(** * More on the search session controller *)

Section ControllerMore.

Implicit Types w : World.

Lemma sent_by_app pid (first later : list (nat * Request)) :
  sent_by pid (first ++ later) = sent_by pid first ++ sent_by pid later.
Proof. unfold sent_by. apply omap_app. Qed.

Lemma sent_by_other pid other (sent : list (nat * Request)) r :
  other ≠ pid → sent_by pid (sent ++ [(other, r)]) = sent_by pid sent.
Proof.
  intros Hne. rewrite sent_by_app. unfold sent_by at 2.
  cbn [omap list_omap fst]. rewrite decide_False by done.
  by rewrite app_nil_r.
Qed.

Lemma observed_by_other pid other (calls : list (nat * SearchTask)) task :
  other ≠ pid → observed_by pid (calls ++ [(other, task)]) = observed_by pid calls.
Proof.
  intros Hne. unfold observed_by. rewrite omap_app.
  cbn [omap list_omap fst]. rewrite decide_False by done.
  by rewrite app_nil_r.
Qed.

Lemma lookup_spawned (l : list Proc) pid p q :
  l !! pid = Some p → (l ++ [q]) !! pid = Some p.
Proof. intros H. by apply lookup_app_l_Some. Qed.

(** One turn of the event loop leaves a finished invocation alone. *)
Lemma step_leaves_finished w pid e :
  procs w !! pid = Some Finished →
  procs (step w e) !! pid = Some Finished
  ∧ sent_by pid (requests (step w e)) = sent_by pid (requests w)
  ∧ observed_by pid (observerCalls (step w e))
    = observed_by pid (observerCalls w).
Proof.
  intros Hdone. pose proof (lookup_lt_Some _ _ _ Hdone) as Hlt.
  assert (Hnew : length (procs w) ≠ pid) by lia.
  destruct e as [query| |other reply|other reply|other reply|other]; cbn [step].
  - destruct (can_submit (ui w) query); [|done].
    unfold handleSmartSearch. destruct (truthy (backgroundTaskId (ui w))); crunch.
    + split; [by apply lookup_spawned|]. by rewrite sent_by_other.
    + rewrite list_lookup_insert_ne by done.
      split; [by apply lookup_spawned|]. by rewrite sent_by_other.
  - destruct (can_cancel (ui w)); [|done].
    unfold handleCancelSearch. destruct (truthy (backgroundTaskId (ui w)));
      [|done]. crunch.
    split; [by apply lookup_spawned|]. by rewrite sent_by_other.
  - destruct (decide (other = pid)) as [->|Hne]; [by rewrite Hdone|].
    destruct (procs w !! other) as [[query old|?|? ?|? ? ?|current| |]|];
      try done.
    + unfold after_cancel_old. destruct (cancelSearchTask reply); crunch;
        rewrite list_lookup_insert_ne by done;
        (split; [done|]); by rewrite sent_by_other.
    + unfold after_cancel. destruct (cancelSearchTask reply); crunch;
        by rewrite list_lookup_insert_ne by done.
  - destruct (decide (other = pid)) as [->|Hne]; [by rewrite Hdone|].
    destruct (procs w !! other) as [[?|query|? ?|? ? ?|?| |]|]; try done.
    unfold after_immediate.
    destruct (paginatedSearch reply) as [immediateResults|err]; crunch.
    + destruct (truthy (Page.background_task_id immediateResults)); crunch;
        rewrite list_lookup_insert_ne by done; [|done].
      split; [done|]. by rewrite sent_by_other.
    + by rewrite list_lookup_insert_ne by done.
  - destruct (decide (other = pid)) as [->|Hne]; [by rewrite Hdone|].
    destruct (procs w !! other) as [[?|?|query taskId|? ? ?|?| |]|];
      try done.
    unfold after_status, poll.
    destruct (getSearchStatus reply) as [task|err]; crunch.
    + destruct (poll_decision task 1000) as [final|err|ms]; crunch.
      * destruct (Task.articles final); crunch;
          rewrite list_lookup_insert_ne by done;
          (split; [done|]); (split; [done|]); by rewrite observed_by_other.
      * rewrite list_lookup_insert_ne by done.
        split; [done|]. split; [done|]. by rewrite observed_by_other.
      * rewrite list_lookup_insert_ne by done.
        split; [done|]. split; [done|]. by rewrite observed_by_other.
    + by rewrite list_lookup_insert_ne by done.
  - destruct (decide (other = pid)) as [->|Hne]; [by rewrite Hdone|].
    destruct (procs w !! other) as [[?|?|? ?|query taskId ms|?| |]|];
      try done.
    crunch. rewrite list_lookup_insert_ne by done.
    split; [done|]. by rewrite sent_by_other.
Qed.

Lemma run_leaves_finished (events : list Event) :
  ∀ w pid,
    procs w !! pid = Some Finished →
    procs (run w events) !! pid = Some Finished
    ∧ sent_by pid (requests (run w events)) = sent_by pid (requests w)
    ∧ observed_by pid (observerCalls (run w events))
      = observed_by pid (observerCalls w).
Proof.
  induction events as [|e events IH]; intros w pid Hdone; [done|].
  rewrite run_cons.
  destruct (step_leaves_finished w pid e Hdone) as (H1 & H2 & H3).
  destruct (IH _ pid H1) as (H4 & H5 & H6).
  split; [done|]. split; congruence.
Qed.

Lemma settling_reply_finishes w pid query taskId reply outcome :
  procs w !! pid = Some (AwaitStatus query taskId) →
  settles (getSearchStatus reply) 1000 = Some outcome →
  procs (step w (StatusReply pid reply)) !! pid = Some Finished
  ∧ requests (step w (StatusReply pid reply)) = requests w.
Proof.
  intros Hproc Hsettles. pose proof (lookup_lt_Some _ _ _ Hproc) as Hlt.
  rewrite (step_status _ _ _ _ _ Hproc). unfold settles in Hsettles.
  unfold after_status, poll.
  destruct (getSearchStatus reply) as [task|err].
  - destruct (poll_decision task 1000) as [final|err|ms]; [| |done].
    + crunch. destruct (Task.articles final); crunch;
        (split; [by apply list_lookup_insert_eq|done]).
    + crunch. split; [by apply list_lookup_insert_eq|done].
  - crunch. split; [by apply list_lookup_insert_eq|done].
Qed.

(** X7. Finality at the controller: once a status reply has settled a poll
    (a terminal status or a failed fetch), the search invocation is finished,
    and whatever happens afterwards (user actions, replies, timers, for this
    or any other invocation) it sends no further request and calls the
    observer no more. *)
Theorem settled_search_stays_silent w pid query taskId reply outcome
    (events : list Event) :
  procs w !! pid = Some (AwaitStatus query taskId) →
  settles (getSearchStatus reply) 1000 = Some outcome →
  let w1 := step w (StatusReply pid reply) in
  let w' := run w1 events in
  procs w' !! pid = Some Finished
  ∧ sent_by pid (requests w') = sent_by pid (requests w)
  ∧ observed_by pid (observerCalls w') = observed_by pid (observerCalls w1).
Proof.
  intros Hproc Hsettles. cbv zeta.
  destruct (settling_reply_finishes w pid query taskId reply outcome
              Hproc Hsettles) as [Hdone Hsent].
  destruct (run_leaves_finished events _ pid Hdone) as (H1 & H2 & H3).
  split; [done|]. split; [|done]. by rewrite H2, Hsent.
Qed.

(** A submitted search, once the cancellation of the recorded task (if
    any) is answered, has reset the whole component state and sent its
    opening requests. *)
Lemma submit_resets w query cancelReply :
  can_submit (ui w) query = true →
  let pid := length (procs w) in
  let w' := run w (SubmitSmartSearch query :: old_cancel_reply w pid cancelReply) in
  procs w' !! pid = Some (AwaitImmediate query)
  ∧ ui w' = mkState [] None true None None None query
  ∧ requests w' = requests w ++ opening_requests w query
  ∧ searchCompleteCalls w' = searchCompleteCalls w
  ∧ observerCalls w' = observerCalls w.
Proof.
  intros Hsubmit. cbv zeta. rewrite run_cons. cbn [step]. rewrite Hsubmit.
  unfold old_cancel_reply, handleSmartSearch, opening_requests.
  destruct (truthy (backgroundTaskId (ui w))) as [old|].
  - set (w1 := (spawn (AwaitCancelOld query old)
                >> send (length (procs w)) (DeleteTask old)) w).
    assert (Hw1 : procs w1 !! length (procs w) = Some (AwaitCancelOld query old)).
    { subst w1. crunch. by rewrite list_lookup_middle. }
    assert (Hlen : (length (procs w) < length (procs w1))%nat)
      by by apply lookup_lt_Some in Hw1.
    rewrite run_single. cbn [step]. rewrite Hw1. unfold after_cancel_old.
    assert (Hreq : requests w1
                   = requests w ++ [(length (procs w), DeleteTask old)])
      by (subst w1; by crunch).
    assert (Hcalls : searchCompleteCalls w1 = searchCompleteCalls w)
      by (subst w1; by crunch).
    assert (Hobs : observerCalls w1 = observerCalls w)
      by (subst w1; by crunch).
    clearbody w1.
    destruct (cancelSearchTask cancelReply); crunch;
      rewrite Hreq, <- app_assoc;
      (split; [by apply list_lookup_insert_eq | done]).
  - unfold run. cbn [foldl]. crunch.
    split; [|done]. apply list_lookup_insert_eq.
    rewrite length_app. simpl. lia.
Qed.

(** X8. When the immediate wave itself fails, the search is over at once:
    the list stays empty, the fatal-error cell carries the message for the
    query, the component is no longer searching, and no status request was
    ever sent. *)
Theorem immediate_failure_is_fatal w query cancelReply reply err :
  can_submit (ui w) query = true →
  paginatedSearch reply = Thrown err →
  let pid := length (procs w) in
  let w' := run w (SubmitSmartSearch query
                   :: old_cancel_reply w pid cancelReply
                   ++ [PaginatedReply pid reply]) in
  ui w' = mkState [] (Some ("智能搜尋「" +:+ query +:+ "」失敗")) false
            None None None query
  ∧ procs w' !! pid = Some Finished
  ∧ requests w' = requests w ++ opening_requests w query
  ∧ console_error "智能搜尋失敗:" err ∈ console w'
  ∧ searchCompleteCalls w' = searchCompleteCalls w.
Proof.
  intros Hsubmit Hreply. cbv zeta. rewrite app_comm_cons, run_app.
  destruct (submit_resets w query cancelReply Hsubmit)
    as (Hproc & Hui & Hreq & Hcalls & _).
  set (w1 := run w (SubmitSmartSearch query :: _)) in *.
  pose proof (lookup_lt_Some _ _ _ Hproc) as Hlt.
  rewrite run_single. cbn [step]. rewrite Hproc.
  unfold after_immediate. rewrite Hreply.
  clearbody w1. crunch. rewrite Hui. crunch.
  split; [done|]. split; [by apply list_lookup_insert_eq|].
  split; [done|]. split; [|done].
  apply elem_of_app. right. by apply list_elem_of_singleton.
Qed.

(** X9. An immediate wave without a background task id, absent or the empty
    string, finishes the search on the spot: its articles are displayed, the
    component stops searching with no task recorded, and no status request
    is sent. *)
Theorem no_background_task_no_poll w query cancelReply reply immediateResults :
  can_submit (ui w) query = true →
  paginatedSearch reply = Returned immediateResults →
  truthy (Page.background_task_id immediateResults) = None →
  let pid := length (procs w) in
  let w' := run w (SubmitSmartSearch query
                   :: old_cancel_reply w pid cancelReply
                   ++ [PaginatedReply pid reply]) in
  ui w' = mkState (Page.articles immediateResults) None false None
            (Some immediateResults) None query
  ∧ procs w' !! pid = Some Finished
  ∧ requests w' = requests w ++ opening_requests w query
  ∧ searchCompleteCalls w'
    = searchCompleteCalls w ++ [length (Page.articles immediateResults)].
Proof.
  intros Hsubmit Hreply Htask. cbv zeta. rewrite app_comm_cons, run_app.
  destruct (submit_resets w query cancelReply Hsubmit)
    as (Hproc & Hui & Hreq & Hcalls & _).
  set (w1 := run w (SubmitSmartSearch query :: _)) in *.
  pose proof (lookup_lt_Some _ _ _ Hproc) as Hlt.
  rewrite run_single. cbn [step]. rewrite Hproc.
  unfold after_immediate. rewrite Hreply, Htask.
  clearbody w1. crunch. rewrite Hui, Hcalls, Htask. crunch.
  split; [done|]. split; [by apply list_lookup_insert_eq|]. by split.
Qed.

Lemma immediate_opens_poll w pid query reply immediateResults taskId :
  procs w !! pid = Some (AwaitImmediate query) →
  paginatedSearch reply = Returned immediateResults →
  truthy (Page.background_task_id immediateResults) = Some taskId →
  let w' := step w (PaginatedReply pid reply) in
  procs w' !! pid = Some (AwaitStatus query taskId)
  ∧ ui w' = mkState (Page.articles immediateResults) (error (ui w))
              (isSearching (ui w)) (currentSearchTask (ui w))
              (Some immediateResults) (Some taskId) (currentSearchQuery (ui w))
  ∧ searchCompleteCalls w'
    = searchCompleteCalls w ++ [length (Page.articles immediateResults)].
Proof.
  intros Hproc Hreply Htask. cbv zeta. cbn [step]. rewrite Hproc.
  unfold after_immediate. rewrite Hreply, Htask. crunch. rewrite Htask.
  split; [|done]. apply list_lookup_insert_eq.
  by apply lookup_lt_Some in Hproc.
Qed.

Lemma tick_touches_progress_only w pid query taskId task :
  procs w !! pid = Some (AwaitStatus query taskId) →
  is_terminal (Task.status task) = false →
  let w' := run w [StatusReply pid (ok task); TimerFired pid] in
  procs w' !! pid = Some (AwaitStatus query taskId)
  ∧ ui w' = ui (setCurrentSearchTask (Some task) w)
  ∧ searchCompleteCalls w' = searchCompleteCalls w.
Proof.
  intros Hproc Hstatus. cbv zeta.
  pose proof (lookup_lt_Some _ _ _ Hproc) as Hlt.
  unfold run. cbn [foldl]. rewrite (step_status _ _ _ _ _ Hproc).
  unfold after_status, poll. cbn [getSearchStatus decode ok].
  rewrite (poll_decision_in_progress 1000 _ Hstatus).
  set (w1 := goto pid (AwaitTimer query taskId 1000) _).
  assert (Hw1 : procs w1 !! pid = Some (AwaitTimer query taskId 1000)).
  { subst w1. crunch. by apply list_lookup_insert_eq. }
  rewrite (step_timer _ _ _ _ _ Hw1). subst w1. crunch.
  split; [|done]. apply list_lookup_insert_eq.
  by rewrite length_insert.
Qed.

Lemma ticks_touch_progress_only (tasks : list SearchTask) :
  ∀ w pid query taskId,
    procs w !! pid = Some (AwaitStatus query taskId) →
    Forall (λ task, is_terminal (Task.status task) = false) tasks →
    let w' := run w (progress_ticks pid tasks) in
    procs w' !! pid = Some (AwaitStatus query taskId)
    ∧ (∃ shown, ui w' = ui (setCurrentSearchTask shown w))
    ∧ searchCompleteCalls w' = searchCompleteCalls w.
Proof.
  induction tasks as [|task tasks IH]; intros w pid query taskId Hproc Hall;
    cbv zeta.
  - split; [done|]. split; [|done]. by exists (currentSearchTask (ui w)).
  - apply Forall_cons in Hall as [Htask Hall].
    unfold progress_ticks. rewrite bind_cons. fold (progress_ticks pid tasks).
    rewrite run_app.
    destruct (tick_touches_progress_only w pid query taskId task Hproc Htask)
      as (Hproc' & Hui & Hcalls).
    destruct (IH _ pid query taskId Hproc' Hall)
      as (Hproc'' & [shown Hui'] & Hcalls').
    split; [exact Hproc''|]. split; [|congruence].
    exists shown. rewrite Hui'. crunch. rewrite Hui. by crunch.
Qed.

Lemma truthy_truthy (x : option string) (s : string) :
  truthy x = Some s → truthy (Some s) = Some s.
Proof.
  destruct x as [t|]; [|done]. simpl. case_decide; [done|].
  intros [= <-]. by rewrite decide_False.
Qed.

Lemma completion_merges w pid query taskId reply final :
  procs w !! pid = Some (AwaitStatus query taskId) →
  getSearchStatus reply = Returned final →
  Task.status final = "completed" →
  let w' := step w (StatusReply pid reply) in
  procs w' !! pid = Some Finished
  ∧ ui w' = mkState (mergeArticles (newsList (ui w)) (Task.articles final))
              (error (ui w)) false (Some final) (paginatedResults (ui w))
              (backgroundTaskId (ui w)) (currentSearchQuery (ui w))
  ∧ searchCompleteCalls w'
    = searchCompleteCalls w
      ++ match Task.articles final with
         | [] => []
         | _ :: _ => [length (Task.articles final)]
         end.
Proof.
  intros Hproc Hreply Hstatus. cbv zeta.
  pose proof (lookup_lt_Some _ _ _ Hproc) as Hlt.
  rewrite (step_status _ _ _ _ _ Hproc). unfold after_status, poll.
  rewrite Hreply, (poll_decision_completed 1000 _ Hstatus). crunch.
  destruct (Task.articles final) eqn:Harticles; crunch.
  - rewrite mergeArticles_nil, app_nil_r.
    split; [by apply list_lookup_insert_eq|done].
  - split; [by apply list_lookup_insert_eq|done].
Qed.

(** X10. A search that runs to completion displays the immediate wave merged
    with the final batch and shows the final task.  It reports to
    [onSearchComplete] the size of the immediate wave and then, when the
    batch is not empty, the size of the batch (not the number of articles on
    display).  The task id stays recorded after completion, so the next
    search begins by requesting the cancellation of the finished task, and
    changes nothing on screen until that request is answered. *)
Theorem completed_search_keeps_task_id
    w query cancelReply reply immediateResults taskId
    (ticks : list SearchTask) (last : HttpReply SearchTask)
    (final : SearchTask) (nextQuery : string) :
  can_submit (ui w) query = true →
  paginatedSearch reply = Returned immediateResults →
  truthy (Page.background_task_id immediateResults) = Some taskId →
  Forall (λ task, is_terminal (Task.status task) = false) ticks →
  getSearchStatus last = Returned final →
  Task.status final = "completed" →
  nextQuery ≠ "" →
  let pid := length (procs w) in
  let w' := run w (SubmitSmartSearch query
                   :: old_cancel_reply w pid cancelReply
                   ++ PaginatedReply pid reply
                   :: progress_ticks pid ticks
                   ++ [StatusReply pid last]) in
  let w'' := step w' (SubmitSmartSearch nextQuery) in
  ui w' = mkState (mergeArticles (Page.articles immediateResults)
                     (Task.articles final))
            None false (Some final) (Some immediateResults) (Some taskId) query
  ∧ procs w' !! pid = Some Finished
  ∧ searchCompleteCalls w'
    = searchCompleteCalls w
      ++ length (Page.articles immediateResults)
         :: match Task.articles final with
            | [] => []
            | _ :: _ => [length (Task.articles final)]
            end
  ∧ ui w'' = ui w'
  ∧ requests w'' = requests w' ++ [(length (procs w'), DeleteTask taskId)].
Proof.
  intros Hsubmit Hreply Htask Hticks Hlast Hstatus Hnext. cbv zeta.
  rewrite app_comm_cons, run_app.
  destruct (submit_resets w query cancelReply Hsubmit)
    as (Hproc1 & Hui1 & _ & Hcalls1 & _).
  set (w1 := run w (SubmitSmartSearch query :: _)) in *.
  rewrite run_cons.
  destruct (immediate_opens_poll w1 _ query reply immediateResults taskId
              Hproc1 Hreply Htask) as (Hproc2 & Hui2 & Hcalls2).
  set (w2 := step w1 _) in *.
  rewrite run_app.
  destruct (ticks_touch_progress_only ticks w2 _ query taskId Hproc2 Hticks)
    as (Hproc3 & [shown Hui3] & Hcalls3).
  set (w3 := run w2 _) in *.
  rewrite run_single.
  destruct (completion_merges w3 _ query taskId last final Hproc3 Hlast
              Hstatus) as (Hproc4 & Hui4 & Hcalls4).
  set (w4 := step w3 _) in *.
  assert (Hfinal : ui w4
    = mkState (mergeArticles (Page.articles immediateResults)
                 (Task.articles final))
        None false (Some final) (Some immediateResults) (Some taskId) query).
  { rewrite Hui4, Hui3. crunch. rewrite Hui2. crunch. rewrite Hui1. by crunch. }
  split; [exact Hfinal|]. split; [exact Hproc4|]. split.
  { rewrite Hcalls4, Hcalls3, Hcalls2, Hcalls1. by rewrite <- app_assoc. }
  clearbody w4. cbn [step].
  assert (Hcan : can_submit (ui w4) nextQuery = true).
  { rewrite Hfinal. unfold can_submit. crunch.
    by rewrite bool_decide_eq_true_2, (bool_decide_eq_false_2 _ Hnext). }
  rewrite Hcan. unfold handleSmartSearch. rewrite Hfinal. crunch.
  rewrite (truthy_truthy _ _ Htask). by crunch.
Qed.

(** X11. The cancel button does not stop the poll.  When the cancellation
    it requested succeeds, the progress display and the recorded task id are
    cleared, but the search invocation keeps waiting for its status reply
    and the component keeps searching; the next status that arrives is put
    back on the progress display, and pressing cancel then does nothing at
    all, because no task id is recorded any more. *)
Theorem cancel_click_does_not_stop_poll
    w canceller current poller query taskId reply acknowledgement
    (next : HttpReply SearchTask) (task : SearchTask) :
  procs w !! canceller = Some (AwaitCancel current) →
  procs w !! poller = Some (AwaitStatus query taskId) →
  cancelSearchTask reply = Returned acknowledgement →
  getSearchStatus next = Returned task →
  let w1 := step w (CancelReply canceller reply) in
  let w2 := step w1 (StatusReply poller next) in
  procs w1 !! poller = Some (AwaitStatus query taskId)
  ∧ ui w1 = mkState (newsList (ui w)) (error (ui w)) (isSearching (ui w))
              None (paginatedResults (ui w)) None (currentSearchQuery (ui w))
  ∧ requests w1 = requests w
  ∧ currentSearchTask (ui w2) = Some task
  ∧ backgroundTaskId (ui w2) = None
  ∧ step w2 ClickCancel = w2.
Proof.
  intros Hcancel Hpoll Hreply Hnext. cbv zeta.
  assert (Hne : canceller ≠ poller) by (intros ->; congruence).
  set (w1 := step w (CancelReply canceller reply)).
  assert (Hw1 : procs w1 !! poller = Some (AwaitStatus query taskId)
                ∧ ui w1 = mkState (newsList (ui w)) (error (ui w))
                            (isSearching (ui w)) None (paginatedResults (ui w))
                            None (currentSearchQuery (ui w))
                ∧ requests w1 = requests w).
  { subst w1. cbn [step]. rewrite Hcancel. unfold after_cancel.
    rewrite Hreply. crunch. by rewrite list_lookup_insert_ne. }
  destruct Hw1 as (Hproc1 & Hui1 & Hreq1).
  split; [exact Hproc1|]. split; [exact Hui1|]. split; [exact Hreq1|].
  clearbody w1.
  set (w2 := step w1 (StatusReply poller next)).
  assert (Hw2 : currentSearchTask (ui w2) = Some task
                ∧ backgroundTaskId (ui w2) = None).
  { subst w2. rewrite (step_status _ _ _ _ _ Hproc1).
    unfold after_status, poll. rewrite Hnext.
    destruct (poll_decision task 1000) as [final|err|ms] eqn:Hdec.
    - apply poll_decision_resolve_inv in Hdec as [_ ->].
      crunch. destruct (Task.articles task); crunch; by rewrite Hui1.
    - crunch. by rewrite Hui1.
    - crunch. by rewrite Hui1. }
  destruct Hw2 as [Hshown Hid].
  split; [exact Hshown|]. split; [exact Hid|].
  clearbody w2. cbn [step]. destruct (can_cancel (ui w2)); [|done].
  unfold handleCancelSearch. by rewrite Hid.
Qed.

End ControllerMore.

(** * Playlist *)

Section PlaylistFacts.

Variable estimateReadingTime : string → Z.

Implicit Types (p : Playlist) (b : Browser) (items : list PlaylistItem).







Lemma find_by_id_None itemId items :
  find_by_id itemId items = None ↔ itemId ∉ (Item.id <$> items).
Proof.
  unfold find_by_id. rewrite list_find_None, Forall_forall. split.
  - intros Hall Hin. apply list_elem_of_fmap in Hin as (item & Heq & Hin).
    by apply (Hall item Hin).
  - intros Hout item Hin Heq. apply Hout. apply list_elem_of_fmap.
    by exists item.
Qed.

Lemma find_by_news_last newsId items item :
  find_by_news newsId items = None →
  News.id (Item.newsItem item) = newsId →
  find_by_news newsId (items ++ [item]) = Some (length items, item).
Proof.
  intros Hnone Hid. unfold find_by_news in *.
  apply list_find_Some. split; [by rewrite list_lookup_middle|].
  split; [done|]. intros j y Hj Hlt.
  rewrite lookup_app_l in Hj by done.
  rewrite list_find_None, Forall_forall in Hnone.
  apply Hnone. by eapply list_elem_of_lookup_2.
Qed.



(** X12. Adding is idempotent: a second [addToPlaylist] of the same news
    item returns the playlist of the first call and touches neither
    storage, clock nor console. *)
Theorem addToPlaylist_twice news p b :
  let first := addToPlaylist estimateReadingTime news (Some p) b in
  addToPlaylist estimateReadingTime news (Some first.1) first.2 = first.
Proof.
  cbv zeta.
  assert (Hfirst : is_Some (find_by_news (News.id news)
             (Plist.items (addToPlaylist estimateReadingTime news (Some p) b).1))).
  { unfold addToPlaylist.
    destruct (find_by_news (News.id news) (Plist.items p)) as [found|] eqn:Hfind.
    - cbn [fst]. by rewrite Hfind.
    - cbn [Date_now random_suffix fst snd Plist.items].
      erewrite find_by_news_last; [by eexists | exact Hfind | reflexivity]. }
  destruct (addToPlaylist estimateReadingTime news (Some p) b) as [p1 b1].
  cbn [fst snd] in *. destruct Hfirst as [found Hfound].
  unfold addToPlaylist. by rewrite Hfound.
Qed.



Lemma total_of_Permutation items1 items2 :
  items1 ≡ₚ items2 → total_of items1 = total_of items2.
Proof.
  unfold total_of. induction 1; simpl; lia.
Qed.

Lemma total_of_unordered items :
  total_of (with_order 0 <$> items) = total_of items.
Proof.
  induction items as [|item items IH]; [done|].
  change (total_of (with_order 0 <$> item :: items))
    with (Item.estimatedDuration item + total_of (with_order 0 <$> items)).
  by rewrite IH.
Qed.

Lemma find_by_id_Some itemId items index item :
  find_by_id itemId items = Some (index, item) →
  Item.id item = itemId ∧ items !! index = Some item.
Proof.
  unfold find_by_id. intros (Hat & Hid & _)%list_find_Some. by split.
Qed.

Lemma find_by_id_own items item :
  NoDup (Item.id <$> items) →
  item ∈ items →
  ∃ index, find_by_id (Item.id item) items = Some (index, item).
Proof.
  intros Hdistinct Hin.
  destruct (find_by_id (Item.id item) items) as [[index found]|] eqn:Hfind.
  - exists index. apply find_by_id_Some in Hfind as [Hid Hat].
    apply list_elem_of_lookup in Hin as [own Hown].
    assert (index = own) as ->.
    { apply (NoDup_lookup (Item.id <$> items) _ _ (Item.id item));
        [done| |]; rewrite list_lookup_fmap.
      - by rewrite Hat, <- Hid.
      - by rewrite Hown. }
    congruence.
  - apply find_by_id_None in Hfind. exfalso. apply Hfind.
    apply list_elem_of_fmap. by exists item.
Qed.

Lemma reordered_unordered (itemIds : list string) items :
  ∀ k, with_order 0 <$> reordered_from k itemIds items
       = omap (λ itemId, with_order 0 ∘ snd <$> find_by_id itemId items)
           itemIds.
Proof.
  induction itemIds as [|itemId itemIds IH]; intros k; [done|].
  cbn [reordered_from omap list_omap].
  destruct (find_by_id itemId items) as [[index item]|]; simpl.
  - by rewrite IH.
  - apply IH.
Qed.

Lemma reordered_all_found (itemIds : list string) items :
  (∀ itemId, itemId ∈ itemIds → itemId ∈ (Item.id <$> items)) →
  ∀ k,
    Item.id <$> reordered_from k itemIds items = itemIds
    ∧ ∀ j item, reordered_from k itemIds items !! j = Some item →
                Item.order item = (k + j)%nat.
Proof.
  induction itemIds as [|itemId itemIds IH]; intros Hall k; [done|].
  cbn [reordered_from].
  destruct (find_by_id itemId items) as [[index item]|] eqn:Hfind.
  - apply find_by_id_Some in Hfind as [Hid _].
    destruct (IH (λ i Hi, Hall i (list_elem_of_further _ _ _ Hi))
                (Datatypes.S k)) as [IH1 IH2].
    split.
    + rewrite fmap_cons, IH1. cbn [with_order Item.id]. by rewrite Hid.
    + intros [|j] x Hx; simpl in Hx.
      * injection Hx as <-. simpl. lia.
      * rewrite (IH2 j x Hx). lia.
  - apply find_by_id_None in Hfind. exfalso. apply Hfind, Hall. by left.
Qed.

Lemma unordered_own_items items :
  NoDup (Item.id <$> items) →
  omap (λ itemId, with_order 0 ∘ snd <$> find_by_id itemId items)
    (Item.id <$> items)
  = with_order 0 <$> items.
Proof.
  intros Hdistinct.
  assert (Hown : ∀ part : list PlaylistItem,
    (∀ item, item ∈ part → item ∈ items) →
    omap (λ itemId, with_order 0 ∘ snd <$> find_by_id itemId items)
      (Item.id <$> part) = with_order 0 <$> part).
  { induction part as [|item part IH]; intros Hsub; [done|].
    cbn [fmap list_fmap omap list_omap].
    destruct (find_by_id_own items item Hdistinct (Hsub item ltac:(by left)))
      as [index ->].
    simpl. f_equal. apply IH. intros x Hx. apply Hsub. by right. }
  by apply Hown.
Qed.

(** X15. Reordering by a list that names every item exactly once keeps the
    playlist tidy: the items come out in the requested order, each with its
    new position as [order], and they are the same items as before.
    [totalDuration] is carried over untouched whatever the list is. *)
Theorem reorder_by_all_ids_keeps_items (itemIds : list string) p b :
  tidy p →
  NoDup (Item.id <$> Plist.items p) →
  itemIds ≡ₚ Item.id <$> Plist.items p →
  let reordered := (reorderPlaylist itemIds (Some p) b).1 in
  tidy reordered
  ∧ Item.id <$> Plist.items reordered = itemIds
  ∧ with_order 0 <$> Plist.items reordered ≡ₚ with_order 0 <$> Plist.items p
  ∧ Plist.totalDuration reordered = Plist.totalDuration p.
Proof.
  intros [Horder Htotal] Hdistinct Hperm. cbv zeta.
  unfold reorderPlaylist. browse.
  cbn [Plist.items Plist.totalDuration].
  assert (Hall : ∀ itemId, itemId ∈ itemIds →
                           itemId ∈ (Item.id <$> Plist.items p))
    by (intros itemId Hin; by rewrite <- Hperm).
  destruct (reordered_all_found itemIds (Plist.items p) Hall 0) as [Hids Hpos].
  assert (Hsame : with_order 0 <$> reordered_from 0 itemIds (Plist.items p)
                  ≡ₚ with_order 0 <$> Plist.items p).
  { rewrite reordered_unordered, Hperm.
    by rewrite (unordered_own_items _ Hdistinct). }
  split; [split|].
  - intros j item Hat. cbn [Plist.items] in Hat. by rewrite (Hpos j item Hat).
  - cbn [Plist.items Plist.totalDuration].
    rewrite Htotal, <- (total_of_unordered (Plist.items p)).
    rewrite <- (total_of_Permutation _ _ Hsame).
    by rewrite total_of_unordered.
  - by repeat split.
Qed.

End PlaylistFacts.

(** * Search history *)

Section HistoryFacts.

Implicit Types (b : Browser) (sessions : list SearchSession) (q : text).

Lemma split_on_not_nil separator (s : text) : split_on separator s ≠ [].
Proof.
  destruct s as [|c s]; [done|]. simpl. case_decide; [done|].
  by destruct (split_on separator s).
Qed.

Lemma split_on_one_word separator (s : text) :
  separator ∉ s → split_on separator s = [s].
Proof.
  induction s as [|c s IH]; intros Hout; [done|].
  simpl. rewrite decide_False by (intros ->; apply Hout; by left).
  rewrite IH; [done|]. intros Hin. apply Hout. by right.
Qed.

Lemma split_on_first_word separator (word rest : text) :
  separator ∉ word →
  split_on separator (word ++ separator :: rest)
  = word :: split_on separator rest.
Proof.
  induction word as [|c word IH]; intros Hout.
  - simpl. by rewrite decide_True.
  - simpl. rewrite decide_False by (intros ->; apply Hout; by left).
    rewrite IH; [done|]. intros Hin. apply Hout. by right.
Qed.

Lemma fit_words_bound (words : list text) :
  ∀ title : text,
    (length title ≤ 21)%nat → (length (fit_words title words) ≤ 21)%nat.
Proof.
  induction words as [|word words IH]; intros title Htitle; [done|].
  simpl. case_decide as Hlong; [done|].
  apply IH. rewrite length_app in Hlong.
  rewrite !length_app. destruct title; simpl in *; lia.
Qed.

(** X16. Session titles: a query of at most 20 code units is its own title;
    a longer one without a space is cut to 20 and given three dots; no title
    is longer than 24 code units, and 24 is reached, because the loop that
    fits words does not count the space it inserts; and a longer query whose
    first word alone exceeds 20 gets the three dots as its whole title. *)
Theorem generateTitle_shape :
  (∀ q, (length (generateTitle q) ≤ 24)%nat)
  ∧ (∀ q, (length q ≤ 20)%nat → generateTitle q = q)
  ∧ (∀ q, (20 < length q)%nat → space ∉ q →
          generateTitle q = take 20 q ++ dots)
  ∧ (∀ word rest : text, (20 < length word)%nat → space ∉ word →
                         generateTitle (word ++ space :: rest) = dots)
  ∧ length (generateTitle long_query) = 24%nat.
Proof.
  split; [|split; [|split; [|split]]].
  - intros q. unfold generateTitle. case_decide as Hshort; [lia|].
    destruct (split_on space q) as [|first [|second words]] eqn:Hwords.
    + by destruct (split_on_not_nil space q).
    + rewrite length_app, length_take. change (length dots) with 3%nat. lia.
    + pose proof (fit_words_bound (first :: second :: words) [] ltac:(simpl; lia))
        as Hfit.
      cbv zeta. rewrite length_app.
      case_decide; [change (length dots) with 3%nat|rewrite length_nil]; lia.
  - intros q Hshort. unfold generateTitle. by rewrite decide_True.
  - intros q Hlong Hout. unfold generateTitle.
    rewrite decide_False by lia. by rewrite (split_on_one_word _ _ Hout).
  - intros word rest Hlong Hout. unfold generateTitle.
    rewrite decide_False by (rewrite length_app; lia).
    rewrite (split_on_first_word _ _ _ Hout).
    destruct (split_on space rest) as [|second words] eqn:Hrest;
      [by destruct (split_on_not_nil space rest)|].
    cbv zeta. cbn [fit_words app]. rewrite decide_True by done.
    rewrite decide_True by (rewrite length_app; simpl; lia). done.
  - vm_compute. reflexivity.
Qed.

Lemma getSessions_frame b :
  storage_full (getSessions b).2 = storage_full b
  ∧ clock (getSessions b).2 = clock b
  ∧ clock_reads (getSessions b).2 = clock_reads b
  ∧ random (getSessions b).2 = random b
  ∧ random_reads (getSessions b).2 = random_reads b
  ∧ searchSessions (getSessions b).2 = searchSessions b.
Proof.
  unfold getSessions. destruct (searchSessions b) eqn:Hslot; browse;
    by rewrite ?Hslot.
Qed.

Lemma saveSessions_stores sessions b :
  storage_full b = None →
  searchSessions (saveSessions sessions b) = Kept sessions.
Proof. unfold saveSessions. by intros ->. Qed.

(** X17. [createSession] keeps the history in shape.  With storage that
    accepts writes, a history of at most 50 sessions with distinct queries
    stays so; the session returned is in it, carries the query and the count
    (0 when none is given).  A query already in the history adds nothing and
    moves nothing: ids, titles and queries stay where they were.  A new query
    goes to the front, titled by [generateTitle], and the oldest session
    falls off once there are 50. *)
Theorem createSession_keeps_history_in_shape q (newsCount : option Z) b sessions :
  (getSessions b).1 = sessions →
  storage_full b = None →
  NoDup (Session.query <$> sessions) →
  (length sessions ≤ MAX_SESSIONS)%nat →
  let r := createSession q newsCount b in
  ∃ stored,
    searchSessions r.2 = Kept stored
    ∧ NoDup (Session.query <$> stored)
    ∧ (length stored ≤ MAX_SESSIONS)%nat
    ∧ r.1 ∈ stored
    ∧ Session.query r.1 = q
    ∧ Session.newsCount r.1 = Some (default 0 newsCount)
    ∧ (q ∈ (Session.query <$> sessions) →
       Session.id <$> stored = Session.id <$> sessions
       ∧ Session.title <$> stored = Session.title <$> sessions
       ∧ Session.query <$> stored = Session.query <$> sessions)
    ∧ (q ∉ (Session.query <$> sessions) →
       stored = take MAX_SESSIONS (r.1 :: sessions)
       ∧ Session.title r.1 = generateTitle q).
Proof.
  intros Hread Hroom Hdistinct Hlen. cbv zeta. unfold createSession.
  destruct (getSessions_frame b) as (Hfull & _).
  destruct (getSessions b) as [read b0]. cbn [fst snd] in *. subst read.
  rewrite <- Hfull in Hroom.
  destruct (list_find (λ s, Session.query s = q) sessions)
    as [[index existing]|] eqn:Hfind.
  - apply list_find_Some in Hfind as (Hat & Hquery & _).
    pose proof (lookup_lt_Some _ _ _ Hat) as Hlt.
    browse. eexists. split; [by apply saveSessions_stores|].
    assert (Hsame : ∀ {B} (f : SearchSession → B) refreshed,
      f refreshed = f existing →
      f <$> <[index:=refreshed]> sessions = f <$> sessions).
    { intros B f refreshed Hf. rewrite list_fmap_insert, Hf.
      apply list_insert_id. by rewrite list_lookup_fmap, Hat. }
    split; [by rewrite Hsame|]. split; [by rewrite length_insert|].
    split; [eapply list_elem_of_lookup_2; by apply list_lookup_insert_eq|].
    split; [done|]. split; [done|]. split.
    + intros _. by rewrite !Hsame.
    + intros Hout. exfalso. apply Hout. apply list_elem_of_fmap.
      exists existing. split; [done|]. by eapply list_elem_of_lookup_2.
  - browse. eexists. split; [by apply saveSessions_stores|].
    assert (Hout : q ∉ (Session.query <$> sessions)).
    { rewrite list_find_None, Forall_forall in Hfind.
      intros (s & Hs & Hin)%list_elem_of_fmap. by apply (Hfind s Hin). }
    unfold MAX_SESSIONS in *. cbn [take].
    split.
    { rewrite fmap_cons. apply NoDup_cons. split.
      - cbn [Session.query]. intros Hin. apply Hout.
        rewrite fmap_take in Hin.
        apply (elem_of_sublist _ _ _ Hin), sublist_take.
      - apply (sublist_NoDup _ (Session.query <$> sessions)); [done|].
        apply fmap_sublist, sublist_take. }
    split; [cbn [length]; rewrite length_take; lia|].
    split; [by left|]. split; [done|]. split; [done|].
    split; [intros Hin; by destruct (Hout Hin)|]. done.
Qed.

Lemma getSessions_stored sessions b :
  searchSessions b = Kept sessions → getSessions b = (sessions, b).
Proof. unfold getSessions. by intros ->. Qed.

Lemma saveSessions_frame sessions b :
  storage_full (saveSessions sessions b) = storage_full b.
Proof.
  unfold saveSessions. destruct (storage_full b) eqn:Hfull; browse;
    by rewrite Hfull.
Qed.

Lemma list_find_head {A} (P : A → Prop) `{!∀ x, Decision (P x)}
    (x : A) (l : list A) :
  P x → list_find P (x :: l) = Some (0%nat, x).
Proof.
  intros Hx. apply list_find_Some. split; [done|]. split; [done|].
  intros j y _ Hj. lia.
Qed.

Lemma updateSession_stored (sessionId : string) (updates : SessionPatch)
    b sessions index session :
  searchSessions b = Kept sessions →
  storage_full b = None →
  list_find (λ s, Session.id s = sessionId) sessions = Some (index, session) →
  searchSessions (updateSession sessionId updates b)
  = Kept (<[index:=patched session updates]> sessions).
Proof.
  intros Hslot Hroom Hfind. unfold updateSession.
  rewrite (getSessions_stored _ _ Hslot), Hfind.
  by apply saveSessions_stores.
Qed.

Lemma createSession_result q (newsCount : option Z) b sessions :
  (getSessions b).1 = sessions →
  storage_full b = None →
  let r := createSession q newsCount b in
  storage_full r.2 = None
  ∧ match list_find (λ s, Session.query s = q) sessions with
    | Some (index, existing) =>
        Session.id r.1 = Session.id existing
        ∧ Session.query r.1 = Session.query existing
        ∧ searchSessions r.2 = Kept (<[index:=r.1]> sessions)
    | None =>
        Session.query r.1 = q
        ∧ searchSessions r.2 = Kept (take MAX_SESSIONS (r.1 :: sessions))
    end.
Proof.
  intros Hread Hroom. cbv zeta. unfold createSession.
  destruct (getSessions_frame b) as (Hfull & _).
  destruct (getSessions b) as [read b0]. cbn [fst snd] in *. subst read.
  rewrite <- Hfull in Hroom.
  destruct (list_find (λ s, Session.query s = q) sessions)
    as [[index existing]|] eqn:Hfind; browse.
  - split; [by rewrite saveSessions_frame|].
    split; [done|]. split; [done|]. by apply saveSessions_stores.
  - split; [by rewrite saveSessions_frame|].
    split; [done|]. by apply saveSessions_stores.
Qed.

(** X18. Creating a session and then reporting a count for it, as
    [MainLayout] does when [NewsList] calls [onSearchComplete], records the
    count on the session of that query: with storage that accepts writes
    and session ids that are distinct, the session found for the query
    afterwards is the one returned by [createSession] and carries the
    reported count. *)
Theorem reported_count_reaches_session q (n : Z) b sessions :
  (getSessions b).1 = sessions →
  storage_full b = None →
  NoDup (Session.id <$> sessions) →
  let created := createSession q None b in
  let reported := handleSearchComplete (Some created.1) n created.2 in
  ∃ index stored,
    list_find (λ s, Session.query s = q) (getSessions reported.2).1
    = Some (index, stored)
    ∧ Session.id stored = Session.id created.1
    ∧ Session.newsCount stored = Some n
    ∧ (Session.newsCount <$> reported.1) = Some (Some n).
Proof.
  intros Hread Hroom Hdistinct. cbv zeta.
  destruct (createSession_result q None b sessions Hread Hroom)
    as [Hroom1 Hcreated].
  destruct (createSession q None b) as [created b1]. cbn [fst snd] in *.
  unfold handleSearchComplete. cbn [fst snd].
  destruct (list_find (λ s, Session.query s = q) sessions)
    as [[index existing]|] eqn:Hfind.
  - destruct Hcreated as (Hid & Hquery & Hslot1).
    apply list_find_Some in Hfind as (Hat & Hq & Hfirst).
    pose proof (lookup_lt_Some _ _ _ Hat) as Hlt.
    assert (Hown : list_find (λ s, Session.id s = Session.id created)
                     (<[index:=created]> sessions) = Some (index, created)).
    { apply list_find_Some. split; [by apply list_lookup_insert_eq|].
      split; [done|]. intros j y Hj Hlt' Hy.
      rewrite list_lookup_insert_ne in Hj by lia.
      assert (j = index); [|lia].
      apply (NoDup_lookup (Session.id <$> sessions) _ _ (Session.id existing));
        [done| |]; rewrite list_lookup_fmap.
      - by rewrite Hj, <- Hid, <- Hy.
      - by rewrite Hat. }
    pose proof (updateSession_stored _ (count_patch n) _ _ _ _ Hslot1 Hroom1
                  Hown) as Hslot2.
    rewrite (getSessions_stored _ _ Hslot2). cbn [fst].
    exists index, (patched created (count_patch n)).
    split; [|done]. apply list_find_Some.
    split; [apply list_lookup_insert_eq; by rewrite length_insert|].
    split; [cbn [patched count_patch Patch.query Session.query default];
            congruence|].
    intros j y Hj Hlt'. rewrite !list_lookup_insert_ne in Hj by lia.
    by apply (Hfirst j y).
  - destruct Hcreated as (Hquery & Hslot1).
    unfold MAX_SESSIONS in Hslot1. cbn [take] in Hslot1.
    pose proof (updateSession_stored _ (count_patch n) _ _ _ _ Hslot1 Hroom1
                  (list_find_head _ created _ eq_refl)) as Hslot2.
    rewrite (getSessions_stored _ _ Hslot2). cbn [fst].
    exists 0%nat, (patched created (count_patch n)).
    split; [|done]. by apply list_find_head.
Qed.

Lemma filter_every {A : Type} (P : A → Prop) `{!∀ x, Decision (P x)}
    (l : list A) :
  (∀ x, x ∈ l → P x) → filter P l = l.
Proof.
  induction l as [|x l IH]; intros Hl; [done|].
  rewrite filter_cons_True by (apply Hl; left).
  f_equal. apply IH. intros y Hy. apply Hl. by right.
Qed.

(** X19. A deleted session stays deleted.  With storage that accepts
    writes, [deleteSession] removes every session carrying the id and keeps
    the others in order; deleting again changes nothing; and a later
    [updateSession] for that id, such as a count reported for a search whose
    session was deleted meanwhile, writes nothing. *)
Theorem deleted_session_stays_deleted (sessionId : string)
    (updates : SessionPatch) b :
  storage_full b = None →
  let b1 := deleteSession sessionId b in
  ((getSessions b1).1
   = filter (λ s, Session.id s ≠ sessionId) (getSessions b).1)
  ∧ (sessionId ∉ (Session.id <$> (getSessions b1).1))
  ∧ (getSessions (deleteSession sessionId b1)).1 = (getSessions b1).1
  ∧ updateSession sessionId updates b1 = b1.
Proof.
  intros Hroom. cbv zeta.
  destruct (getSessions_frame b) as (Hfull & _).
  assert (Hdelete : deleteSession sessionId b
                    = saveSessions
                        (filter (λ s, Session.id s ≠ sessionId)
                           (getSessions b).1) (getSessions b).2)
    by (unfold deleteSession; by destruct (getSessions b)).
  rewrite Hdelete. clear Hdelete.
  destruct (getSessions b) as [sessions b0]. cbn [fst snd] in *.
  rewrite <- Hfull in Hroom.
  set (kept := filter (λ s, Session.id s ≠ sessionId) sessions).
  set (b1 := saveSessions kept b0).
  assert (Hb1 : searchSessions b1 = Kept kept) by by apply saveSessions_stores.
  assert (Hroom1 : storage_full b1 = None).
  { subst b1. by rewrite saveSessions_frame. }
  assert (Hgone : sessionId ∉ (Session.id <$> kept)).
  { intros (s & Hid & Hin)%list_elem_of_fmap.
    apply list_elem_of_filter in Hin as [Hne _]. by apply Hne. }
  rewrite (getSessions_stored _ _ Hb1). cbn [fst].
  split; [done|]. split; [done|]. split.
  - unfold deleteSession. rewrite (getSessions_stored _ _ Hb1).
    set (again := filter (λ s, Session.id s ≠ sessionId) kept).
    assert (Hagain : again = kept).
    { subst again. apply filter_every. intros s Hin Hid.
      apply Hgone. apply list_elem_of_fmap. by exists s. }
    rewrite Hagain.
    by rewrite (getSessions_stored _ (saveSessions kept b1)
                  (saveSessions_stores _ _ Hroom1)).
  - unfold updateSession. rewrite (getSessions_stored _ _ Hb1).
    assert (Hnone : list_find (λ s, Session.id s = sessionId) kept = None).
    { apply list_find_None, Forall_forall. intros s Hin Hid.
      apply Hgone. apply list_elem_of_fmap. by exists s. }
    by rewrite Hnone.
Qed.

End HistoryFacts.

(** X20. Writes that fail are swallowed.  When [localStorage] refuses
    writes, [createSession] and [addToPlaylist] still return the session and
    the playlist with the new item, the stored history and the stored
    playlist are left as they were, and the failures are only logged; so what
    the page shows and what is stored part ways. *)
Theorem full_storage_is_survived (estimateReadingTime : string → Z)
    (q : text) (newsCount : option Z) (news : NewsItem) (p : Playlist)
    (b : Browser) (reason : string) :
  storage_full b = Some reason →
  find_by_news (News.id news) (Plist.items p) = None →
  let created := createSession q newsCount b in
  let added := addToPlaylist estimateReadingTime news (Some p) b in
  (searchSessions created.2 = searchSessions b
   ∧ Session.query created.1 = q
   ∧ console_error "Error saving search sessions:" reason
     ∈ browser_console created.2)
  ∧ (currentPlaylist added.2 = currentPlaylist b
     ∧ is_Some (find_by_news (News.id news) (Plist.items added.1))
     ∧ console_error "Error saving current playlist:" reason
       ∈ browser_console added.2).
Proof.
  intros Hfull Hnews. cbv zeta. split.
  - unfold createSession.
    destruct (getSessions_frame b) as (Hfull0 & _ & _ & _ & _ & Hslot).
    destruct (getSessions b) as [sessions b0]. cbn [fst snd] in *.
    rewrite <- Hfull0 in Hfull. rewrite <- Hslot.
    destruct (list_find (λ s, Session.query s = q) sessions)
      as [[index existing]|] eqn:Hfind.
    + apply list_find_Some in Hfind as (_ & Hquery & _).
      unfold saveSessions. browse. rewrite Hfull. browse.
      split; [done|]. split; [done|].
      apply elem_of_app. right. by apply list_elem_of_singleton.
    + unfold saveSessions. browse. rewrite Hfull. browse.
      split; [done|]. split; [done|].
      apply elem_of_app. right. by apply list_elem_of_singleton.
  - unfold addToPlaylist. rewrite Hnews.
    unfold saveCurrentPlaylist. browse. rewrite Hfull. browse.
    split; [done|]. cbn [Plist.items]. split.
    + erewrite find_by_news_last; [by eexists | exact Hnews | reflexivity].
    + apply elem_of_app. right. by apply list_elem_of_singleton.
Qed.

(** * The search bar gate *)

(** X21. The search bar is disabled only once a search has reset the
    state.  A search submitted with no task id recorded sets [isSearching]
    at once, so a second submit is ignored.  A search submitted while a task
    id is recorded first awaits the cancellation of that task and changes
    nothing on screen meanwhile, so a second submit goes through: both
    invocations are then under way, each having requested the same
    cancellation. *)
Theorem second_submit_during_cancellation (w : World) (query again : string) :
  can_submit (ui w) query = true →
  again ≠ "" →
  let w1 := step w (SubmitSmartSearch query) in
  let w2 := step w1 (SubmitSmartSearch again) in
  match truthy (backgroundTaskId (ui w)) with
  | None => isSearching (ui w1) = true ∧ w2 = w1
  | Some old =>
      ui w2 = ui w
      ∧ procs w2 = procs w ++ [AwaitCancelOld query old; AwaitCancelOld again old]
      ∧ requests w2
        = requests w ++ [(length (procs w), DeleteTask old);
                         (Datatypes.S (length (procs w)), DeleteTask old)]
  end.
Proof.
  intros Hsubmit Hagain. cbv zeta. cbn [step]. rewrite Hsubmit.
  unfold handleSmartSearch.
  destruct (truthy (backgroundTaskId (ui w))) as [old|] eqn:Hid.
  - assert (Hcan : can_submit (ui w) again = true).
    { unfold can_submit in *. apply andb_true_iff in Hsubmit as [Hrest _].
      rewrite Hrest. by rewrite (bool_decide_eq_false_2 _ Hagain). }
    crunch. rewrite Hcan, Hid. crunch. rewrite length_app, <- !app_assoc.
    cbn [length app]. rewrite Nat.add_1_r. done.
  - crunch. split; [done|].
    unfold can_submit. crunch. by rewrite andb_false_r.
Qed.

(** * The further scenarios, run *)

Lemma settled_search_stays_silent_witness :
  let w := run mounted polling_T1 in
  let final := ok (task_of "T1" "台灣" "completed" 100 [article "C"]) in
  let later := [ TimerFired 0; StatusReply 0 final; SubmitSmartSearch "新聞";
                 PaginatedReply 1 (ok (page_of [] None)) ] in
  procs w !! 0%nat = Some (AwaitStatus "台灣" "T1")
  ∧ procs (run (step w (StatusReply 0 final)) later) !! 0%nat = Some Finished
  ∧ sent_by 0 (requests (run (step w (StatusReply 0 final)) later))
    = [PostPaginated "台灣" 1 8; GetStatus "T1"].
Proof.
  cbv zeta.
  assert (Hproc : procs (run mounted polling_T1) !! 0%nat
                  = Some (AwaitStatus "台灣" "T1")) by (vm_compute; reflexivity).
  split; [exact Hproc|].
  pose proof (settled_search_stays_silent (run mounted polling_T1) 0 "台灣" "T1"
                (ok (task_of "T1" "台灣" "completed" 100 [article "C"]))
                (Returned (task_of "T1" "台灣" "completed" 100 [article "C"]))
                [ TimerFired 0;
                  StatusReply 0
                    (ok (task_of "T1" "台灣" "completed" 100 [article "C"]));
                  SubmitSmartSearch "新聞";
                  PaginatedReply 1 (ok (page_of [] None)) ]
                Hproc eq_refl) as (H1 & H2 & _).
  split; [exact H1|]. rewrite H2. vm_compute. reflexivity.
Defined.

Lemma immediate_failure_is_fatal_witness :
  let w' := run mounted
              [ SubmitSmartSearch "台灣";
                PaginatedReply 0 (Response false "Bad Gateway" (page_of [] None)) ] in
  can_submit (ui mounted) "台灣" = true
  ∧ paginatedSearch (Response false "Bad Gateway" (page_of [] None))
    = Thrown "分頁搜尋失敗: Bad Gateway"
  ∧ error (ui w') = Some "智能搜尋「台灣」失敗"
  ∧ newsList (ui w') = [].
Proof.
  cbv zeta. split; [reflexivity|]. split; [reflexivity|].
  pose proof (immediate_failure_is_fatal mounted "台灣" (ok "")
                (Response false "Bad Gateway" (page_of [] None))
                "分頁搜尋失敗: Bad Gateway" eq_refl eq_refl) as (Hui & _).
  cbv zeta in Hui.
  change (run mounted
            (SubmitSmartSearch "台灣"
             :: old_cancel_reply mounted (length (procs mounted)) (ok "")
             ++ [PaginatedReply (length (procs mounted))
                   (Response false "Bad Gateway" (page_of [] None))]))
    with (run mounted
            [ SubmitSmartSearch "台灣";
              PaginatedReply 0 (Response false "Bad Gateway" (page_of [] None)) ])
    in Hui.
  rewrite Hui. split; reflexivity.
Defined.

Lemma no_background_task_no_poll_witness :
  let immediate := page_of [article "A"] (Some "") in
  let w' := run mounted [ SubmitSmartSearch "台灣";
                          PaginatedReply 0 (ok immediate) ] in
  can_submit (ui mounted) "台灣" = true
  ∧ truthy (Page.background_task_id immediate) = None
  ∧ procs w' !! 0%nat = Some Finished
  ∧ requests w' = [(0%nat, PostPaginated "台灣" 1 8)].
Proof.
  cbv zeta. split; [reflexivity|]. split; [reflexivity|].
  pose proof (no_background_task_no_poll mounted "台灣" (ok "")
                (ok (page_of [article "A"] (Some "")))
                (page_of [article "A"] (Some "")) eq_refl eq_refl eq_refl)
    as (_ & Hproc & Hreq & _).
  split; [exact Hproc | exact Hreq].
Defined.

Lemma completed_search_keeps_task_id_witness :
  let w' := run mounted
              (polling_T1
               ++ [ StatusReply 0
                      (ok (task_of "T1" "台灣" "completed" 100
                             [article_again "B"; article "C"])) ]) in
  can_submit (ui mounted) "台灣" = true
  ∧ backgroundTaskId (ui w') = Some "T1"
  ∧ searchCompleteCalls w' = [2%nat; 2%nat]
  ∧ length (newsList (ui w')) = 3%nat
  ∧ requests (step w' (SubmitSmartSearch "新聞"))
    = requests w' ++ [(1%nat, DeleteTask "T1")].
Proof.
  cbv zeta.
  pose proof (completed_search_keeps_task_id mounted "台灣" (ok "")
                (ok (page_of [article "A"; article "B"] (Some "T1")))
                (page_of [article "A"; article "B"] (Some "T1")) "T1" []
                (ok (task_of "T1" "台灣" "completed" 100
                       [article_again "B"; article "C"]))
                (task_of "T1" "台灣" "completed" 100
                   [article_again "B"; article "C"])
                "新聞" eq_refl eq_refl eq_refl (Forall_nil_2 _) eq_refl eq_refl
                ltac:(discriminate)) as (Hui & _ & Hcalls & _ & Hreq).
  cbv zeta in Hui, Hcalls, Hreq.
  split; [reflexivity|].
  split; [vm_compute; reflexivity|].
  split; [exact Hcalls|].
  split; [vm_compute; reflexivity|].
  exact Hreq.
Defined.

Lemma cancel_click_does_not_stop_poll_witness :
  let w := run mounted (cancel_pressed ++ [TimerFired 0]) in
  let next := task_of "T1" "q1" "filtering_articles" 40 [] in
  let w2 := run w [ CancelReply 1 (ok "task cancelled");
                    StatusReply 0 (ok next) ] in
  procs w !! 1%nat = Some (AwaitCancel "T1")
  ∧ procs w !! 0%nat = Some (AwaitStatus "q1" "T1")
  ∧ currentSearchTask (ui w2) = Some next
  ∧ step w2 ClickCancel = w2.
Proof.
  cbv zeta.
  assert (Hcancel : procs (run mounted (cancel_pressed ++ [TimerFired 0]))
                      !! 1%nat = Some (AwaitCancel "T1"))
    by (vm_compute; reflexivity).
  assert (Hpoll : procs (run mounted (cancel_pressed ++ [TimerFired 0]))
                    !! 0%nat = Some (AwaitStatus "q1" "T1"))
    by (vm_compute; reflexivity).
  split; [exact Hcancel|]. split; [exact Hpoll|].
  pose proof (cancel_click_does_not_stop_poll _ 1 "T1" 0 "q1" "T1"
                (ok "task cancelled") "task cancelled"
                (ok (task_of "T1" "q1" "filtering_articles" 40 []))
                (task_of "T1" "q1" "filtering_articles" 40 [])
                Hcancel Hpoll eq_refl eq_refl) as (_ & _ & _ & Hshown & _ & Hnoop).
  split; [exact Hshown | exact Hnoop].
Defined.

Lemma sample_playlist_tidy : tidy sample_playlist.
Proof.
  split; [|reflexivity].
  intros [|[|index]] item Hat; simpl in Hat; by simplify_eq.
Qed.



Lemma reorder_by_all_ids_keeps_items_witness :
  let reordered := (reorderPlaylist ["item_2_b"; "item_1_a"]
                      (Some sample_playlist) sample_browser).1 in
  tidy sample_playlist
  ∧ NoDup (Item.id <$> Plist.items sample_playlist)
  ∧ ["item_2_b"; "item_1_a"] ≡ₚ Item.id <$> Plist.items sample_playlist
  ∧ tidy reordered
  ∧ Item.id <$> Plist.items reordered = ["item_2_b"; "item_1_a"].
Proof.
  cbv zeta.
  assert (Hdistinct : NoDup (Item.id <$> Plist.items sample_playlist))
    by (apply (bool_decide_unpack _); vm_compute; exact I).
  assert (Hperm : ["item_2_b"; "item_1_a"]
                  ≡ₚ Item.id <$> Plist.items sample_playlist)
    by apply perm_swap.
  split; [exact sample_playlist_tidy|]. split; [exact Hdistinct|].
  split; [exact Hperm|].
  destruct (reorder_by_all_ids_keeps_items ["item_2_b"; "item_1_a"]
              sample_playlist sample_browser sample_playlist_tidy Hdistinct
              Hperm) as (Htidy & Hids & _).
  split; [exact Htidy | exact Hids].
Defined.

Lemma createSession_keeps_history_in_shape_witness :
  let r := createSession [65; 73]%N (Some 5) history_browser in
  (getSessions history_browser).1 = sample_sessions
  ∧ storage_full history_browser = None
  ∧ NoDup (Session.query <$> sample_sessions)
  ∧ (length sample_sessions ≤ MAX_SESSIONS)%nat
  ∧ Session.id r.1 = "session_2_b"
  ∧ ∃ stored, searchSessions r.2 = Kept stored
              ∧ Session.id <$> stored = ["session_1_a"; "session_2_b"].
Proof.
  cbv zeta.
  assert (Hdistinct : NoDup (Session.query <$> sample_sessions))
    by (apply (bool_decide_unpack _); vm_compute; exact I).
  assert (Hlen : (length sample_sessions ≤ MAX_SESSIONS)%nat)
    by (vm_compute; lia).
  split; [reflexivity|]. split; [reflexivity|]. split; [exact Hdistinct|].
  split; [exact Hlen|]. split; [vm_compute; reflexivity|].
  destruct (createSession_keeps_history_in_shape [65; 73]%N (Some 5)
              history_browser sample_sessions eq_refl eq_refl Hdistinct Hlen)
    as (stored & Hslot & _ & _ & _ & _ & _ & Hsame & _).
  exists stored. split; [exact Hslot|].
  apply Hsame. apply (bool_decide_unpack _). vm_compute. exact I.
Defined.

Lemma reported_count_reaches_session_witness :
  let created := createSession [26032; 32862]%N None history_browser in
  let reported := handleSearchComplete (Some created.1) 12 created.2 in
  (getSessions history_browser).1 = sample_sessions
  ∧ storage_full history_browser = None
  ∧ NoDup (Session.id <$> sample_sessions)
  ∧ ∃ index stored,
      list_find (λ s, Session.query s = [26032; 32862]%N)
        (getSessions reported.2).1 = Some (index, stored)
      ∧ Session.newsCount stored = Some 12.
Proof.
  cbv zeta.
  assert (Hdistinct : NoDup (Session.id <$> sample_sessions))
    by (apply (bool_decide_unpack _); vm_compute; exact I).
  split; [reflexivity|]. split; [reflexivity|]. split; [exact Hdistinct|].
  destruct (reported_count_reaches_session [26032; 32862]%N 12
              history_browser sample_sessions eq_refl eq_refl Hdistinct)
    as (index & stored & Hfind & _ & Hcount & _).
  exists index, stored. split; [exact Hfind | exact Hcount].
Defined.

Lemma deleted_session_stays_deleted_witness :
  storage_full history_browser = None
  ∧ Session.id <$> (getSessions (deleteSession "session_1_a" history_browser)).1
    = ["session_2_b"]
  ∧ updateSession "session_1_a" (count_patch 3)
      (deleteSession "session_1_a" history_browser)
    = deleteSession "session_1_a" history_browser.
Proof.
  split; [reflexivity|].
  destruct (deleted_session_stays_deleted "session_1_a" (count_patch 3)
              history_browser eq_refl) as (Hkept & _ & _ & Hnoop).
  cbv zeta in Hkept, Hnoop. split; [|exact Hnoop].
  rewrite Hkept. vm_compute. reflexivity.
Defined.

Lemma full_storage_is_survived_witness :
  let added := addToPlaylist flat_estimate (article "C") (Some sample_playlist)
                 full_browser in
  storage_full full_browser = Some "QuotaExceededError"
  ∧ find_by_news "C" (Plist.items sample_playlist) = None
  ∧ currentPlaylist added.2 = Missing
  ∧ length (Plist.items added.1) = 3%nat.
Proof.
  cbv zeta.
  assert (Hnews : find_by_news (News.id (article "C"))
                    (Plist.items sample_playlist) = None)
    by (vm_compute; reflexivity).
  split; [reflexivity|]. split; [exact Hnews|].
  destruct (full_storage_is_survived flat_estimate [65]%N None (article "C")
              sample_playlist full_browser "QuotaExceededError" eq_refl Hnews)
    as [_ (Hslot & _ & _)].
  cbv zeta in Hslot. split; [exact Hslot|]. vm_compute. reflexivity.
Defined.

Lemma second_submit_during_cancellation_witness :
  let w := run mounted resubmitted in
  can_submit (ui (run mounted (take 3 resubmitted))) "q2" = true
  ∧ generation (step w (SubmitSmartSearch "q3")) = 3%nat
  ∧ requests (step w (SubmitSmartSearch "q3"))
    = requests (run mounted (take 3 resubmitted))
      ++ [(1%nat, DeleteTask "T1"); (2%nat, DeleteTask "T1")].
Proof.
  cbv zeta.
  assert (Hcan : can_submit (ui (run mounted (take 3 resubmitted))) "q2" = true)
    by (vm_compute; reflexivity).
  split; [exact Hcan|]. split; [vm_compute; reflexivity|].
  pose proof (second_submit_during_cancellation
                (run mounted (take 3 resubmitted)) "q2" "q3" Hcan
                ltac:(discriminate)) as H.
  cbv zeta in H.
  assert (Hid : truthy (backgroundTaskId
                          (ui (run mounted (take 3 resubmitted)))) = Some "T1")
    by (vm_compute; reflexivity).
  rewrite Hid in H. destruct H as (_ & _ & Hreq).
  exact Hreq.
Defined.

